(** * The Corelight processor: JSON sensor logs rewritten as Zeek TSV

    A shallow embedding of [processors/corelight.go] (package [processors]
    of the ingest library) and the properties its specification states.

    Layout:
    - [Text]     byte slices and strings, [bytes.IndexByte], [strings.Split];
    - [F64]      IEEE 754 binary64 values and the [fmt] verbs the processor
                 uses on them ([%d], [%.5f], [%.6f]);
    - [GoTypes], [GoLib], [Tagger]
                 the collaborators that live outside the file
                 ([encoding/json], [time], [entry], [config], the tagger);
    - [Corelight] the processor itself, function by function;
    - [Strings], [Relay]
                 the configuration of the relay ingester ([GetConfig]
                 apart, which reads the file): bind and reader types,
                 [verifyConfig] and [Tags];
    - [Ref]      an executable instance of the collaborators, used to run
                 the processor on concrete payloads;
    - the theorems. *)

From Stdlib Require Import ZArith String Ascii List Bool Lia.
From Stdlib Require Import Strings.Byte.
From Stdlib Require Import DecimalString DecimalPos DecimalZ.
From Stdlib Require Import Floats.SpecFloat.
From stdpp Require Import base option list gmap strings sorting.

Local Open Scope Z_scope.
Set Warnings "-register-all".

(** ** Text: Go strings and byte slices *)

Module Text.

(** A Go [[]byte] is a sequence of bytes; a Go [string] is an immutable
    sequence of bytes, here a [string] (one [ascii] per byte). *)
Abbreviation bytes := (list byte).

Definition of_string (s : string) : bytes := String.list_byte_of_string s.

Definition TAB : ascii := "009"%char.
Definition LF : ascii := "010"%char.
Definition LBRACE : ascii := "{"%char.
Definition tab_byte : byte := byte_of_ascii TAB.
Definition lbrace_byte : byte := byte_of_ascii LBRACE.

(** The bytes that give a line its structure, and the opening brace. *)
Definition structural (c : ascii) : Prop := c = TAB \/ c = LF \/ c = LBRACE.

(** [bytes.IndexByte(b, c)]: index of the first [c] in [b], [None] for
    Go's [-1]. *)
Fixpoint IndexByte (b : bytes) (c : byte) : option nat :=
  match b with
  | [] => None
  | x :: b' => if Byte.eqb x c then Some 0%nat
               else S <$> IndexByte b' c
  end.

(** [strings.Split(s, sep)] for a one-byte separator: the substrings
    between separators, [[""]] for the empty string. *)
Fixpoint Split (s : string) (sep : ascii) : list string :=
  match s with
  | EmptyString => [EmptyString]
  | String a s' =>
      if Ascii.eqb a sep then EmptyString :: Split s' sep
      else match Split s' sep with
           | x :: r => String a x :: r
           | [] => [String a EmptyString]
           end
  end.

(** The columns of a line: the byte runs between tab bytes. *)
Fixpoint columns (b : bytes) : list bytes :=
  match b with
  | [] => [[]]
  | x :: b' =>
      if Byte.eqb x tab_byte then [] :: columns b'
      else match columns b' with
           | c :: r => (x :: c) :: r
           | [] => [[x]]
           end
  end.

Fixpoint string_forallb (p : ascii -> bool) (s : string) : bool :=
  match s with
  | EmptyString => true
  | String a s' => p a && string_forallb p s'
  end.

Definition is_digit (a : ascii) : bool :=
  match Ascii.is_nat a with Some _ => true | None => false end.

Definition all_digits (s : string) : bool := string_forallb is_digit s.

Definition nonempty (s : string) : bool :=
  match s with EmptyString => false | _ => true end.




Definition has_char (c : ascii) (s : string) : bool :=
  negb (string_forallb (fun a => negb (Ascii.eqb a c)) s).

End Text.
Import Text.

(** ** Float64 values and their textual forms *)

Module F64.

(** A Go [float64] is an IEEE 754 binary64 value: 53 bits of precision,
    infinities at exponent 1024. *)
Definition float64 := spec_float.
Definition prec : Z := 53.
Definition emax : Z := 1024.


Definition is_finite (f : float64) : bool :=
  match f with
  | S754_zero _ | S754_finite _ _ _ => true
  | _ => false
  end.

(** [float64(n)] for an integer [n]: the nearest binary64, ties to even. *)
Definition of_Z (n : Z) : float64 := binary_normalize prec emax n 0 false.

(** Correctly rounded division, the [/] of Go on [float64]. *)
Definition div (x y : float64) : float64 := SFdiv prec emax x y.

Definition eqb (x y : float64) : bool := SFeqb x y.

(** A signed magnitude [k * 2^e] as a float ([k >= 0]). *)
Definition of_mag (s : bool) (k : Z) (e : Z) : float64 :=
  match k with
  | Zpos p => binary_round prec emax s p e
  | _ => S754_zero s
  end.

(** [math.Modf(f)]: the integer part and the fractional part, both
    carrying the sign of [f]; [Modf(±Inf) = (±Inf, NaN)]. *)
Definition Modf (f : float64) : float64 * float64 :=
  match f with
  | S754_nan => (S754_nan, S754_nan)
  | S754_infinity s => (f, S754_nan)
  | S754_zero s => (f, f)
  | S754_finite s m e =>
      if 0 <=? e then (f, S754_zero s)
      else (of_mag s (Zpos m / 2 ^ (- e)) 0,
            of_mag s (Zpos m mod 2 ^ (- e)) e)
  end.

(** The integer obtained by discarding the fraction of a finite value. *)
Definition trunc (f : float64) : Z :=
  match f with
  | S754_finite s m e =>
      let k := if 0 <=? e then Zpos m * 2 ^ e else Zpos m / 2 ^ (- e) in
      if s then - k else k
  | _ => 0
  end.

(** The value is a whole number. *)
Definition integral (f : float64) : bool :=
  match f with
  | S754_zero _ => true
  | S754_finite _ m e => (0 <=? e) || (Zpos m mod 2 ^ (- e) =? 0)
  | _ => false
  end.


Definition int_min : Z := - 2 ^ 63.
Definition int_max : Z := 2 ^ 63 - 1.

(** [int(f)] on a 64-bit platform.  The language leaves the result
    unspecified when the truncated value does not fit the integer type
    (and for NaN); [oob] is what the platform produces there. *)
Definition to_int (oob : float64 -> Z) (f : float64) : Z :=
  if is_finite f && (int_min <=? trunc f) && (trunc f <=? int_max)
  then trunc f else oob f.

(** [%d] of an integer. *)
Definition fmt_d (n : Z) : string := NilZero.string_of_int (Z.to_int n).

Definition digit (d : Z) : ascii := ascii_of_nat (48 + Z.to_nat d).

(** The last [n] decimal digits of [k], most significant first. *)
Fixpoint fixed_digits (n : nat) (k : Z) : string :=
  match n with
  | O => EmptyString
  | S n' => fixed_digits n' (k / 10) +:+ String (digit (k mod 10)) EmptyString
  end.

(** [m * 2^e * 10^p] rounded to the nearest integer, ties to even. *)
Definition scaled_round (m : positive) (e : Z) (p : nat) : Z :=
  let num := Zpos m * 10 ^ Z.of_nat p in
  if 0 <=? e then num * 2 ^ e
  else
    let den := 2 ^ (- e) in
    let q := num / den in
    let r := num mod den in
    match 2 * r ?= den with
    | Lt => q
    | Gt => q + 1
    | Eq => if Z.even q then q else q + 1
    end.

Definition fixed_of (s : bool) (n : Z) (p : nat) : string :=
  (if s then "-" else "") +:+
  fmt_d (n / 10 ^ Z.of_nat p) +:+
  match p with
  | O => ""
  | _ => "." +:+ fixed_digits p (n mod 10 ^ Z.of_nat p)
  end.

(** [%.pf] of a float64: the exact binary value rounded to [p] decimals
    (ties to even), sign first; non-finite values print as words. *)
Definition fmt_f (p : nat) (f : float64) : string :=
  match f with
  | S754_nan => "NaN"
  | S754_infinity s => if s then "-Inf" else "+Inf"
  | S754_zero s => fixed_of s 0 p
  | S754_finite s m e => fixed_of s (scaled_round m e p) p
  end.

End F64.
Import F64.

(** ** Decoded JSON values *)

(** What [encoding/json] stores in an [interface{}]: [nil], [bool],
    [float64], [string], [[]interface{}] and [map[string]interface{}].
    A nested object is kept as its key/value pairs. *)
Inductive Value :=
| VNull
| VBool (b : bool)
| VNum (f : float64)
| VStr (s : string)
| VArr (l : list Value)
| VObj (kvs : list (string * Value)).

(** ** Configuration *)

Record CorelightConfig := {
  (** the prefix for corelight logs; each log type name is appended to it
      to create a tag *)
  Prefix : string
}.

(** ** Collaborators outside the file *)

(** The processor calls into the Go standard library ([encoding/json],
    [time], [strconv] through [fmt]) and into the [entry] and [config]
    packages of the ingest library.  Their code is not part of the
    processor; the development is parametric in them: first the types they
    declare, then the operations. *)
Class GoTypes := {
  (** [error] values *)
  error : Type;
  (** [time.Time] *)
  Time : Type;
  (** [entry.EntryTag] and [entry.Timestamp] *)
  EntryTag : Type;
  Timestamp : Type;
  (** [config.VariableConfig] *)
  VariableConfig : Type
}.

Class GoLib `{GoTypes} := {
  (** the zero [time.Time], [time.Parse(time.RFC3339Nano, s)] ([None] when
      it returns an error) and [t.UnixNano()] *)
  time_zero : Time;
  time_Parse : string -> option Time;
  UnixNano : Time -> Z;
  (** [UnixNano] returns an [int64] *)
  UnixNano_int64 : forall t, int_min <= UnixNano t <= int_max;
  (** [json.Unmarshal(b, &mp)] for an empty [mp : map[string]interface{}]:
      the decoded map, [None] when it returns an error *)
  json_Unmarshal : bytes -> option (gmap string Value);
  (** [entry.FromStandard] *)
  FromStandard : Time -> Timestamp;
  (** [%v] of a [float64] (the shortest decimal that reads back) *)
  fmt_v_float : float64 -> string;
  (** [int(f)] where the truncated value does not fit: some [int64] *)
  int_oob : float64 -> Z;
  int_oob_int64 : forall f, int_min <= int_oob f <= int_max;
  (** [vc.MapTo(&c)] on a zero-valued [c]: the filled configuration and
      the error, if any *)
  MapTo : VariableConfig -> CorelightConfig * option error;
  (** [ErrNilConfig] and [fmt.Errorf] *)
  ErrNilConfig : error;
  Errorf : string -> error
}.

(** The [Tagger] interface: [NegotiateTag(name) (entry.EntryTag, error)].
    A tagger is a stateful object; the call returns its next state. *)
Class Tagger `{GoTypes} (T : Type) :=
  NegotiateTag : string -> T -> (EntryTag + error) * T.

(** A computation that may end in a run-time panic. *)
Inductive outcome (A : Type) :=
| Done (a : A)
| Panic (why : string).
Arguments Done {A} a.
Arguments Panic {A} why.

#[global] Instance outcome_ret : MRet outcome := fun A a => Done a.
#[global] Instance outcome_bind : MBind outcome := fun A B k m =>
  match m with
  | Done a => k a
  | Panic w => Panic w
  end.

(** ** The processor *)

Module Corelight.

(** A pointer to a record. *)
Abbreviation loc := nat.

Section WithLib.
Context `{GoLib}.

Definition CorelightProcessor : string := "corelight".
Definition defaultTag : string := "".
Definition defaultPrefix : string := "zeek".

(** Modelled from the spec: [entry.Entry] is declared in the [entry]
    package; a record carries a tag, a timestamp and a payload. *)
Record Entry := {
  TS : Timestamp;
  Tag : EntryTag;
  Data : bytes
}.

(** [%v] of a decoded value held in an [interface{}].  Maps print their
    entries in increasing key order. *)
Definition kv_le (a b : string * string) : Prop := String.le a.1 b.1.
#[global] Instance kv_le_dec : RelDecision kv_le.
Proof. intros a b. unfold kv_le. apply _. Defined.

Definition join_sp (l : list string) : string :=
  match l with
  | [] => ""
  | x :: r => foldl (fun acc y => acc +:+ " " +:+ y) x r
  end.

Fixpoint fmt_v (v : Value) : string :=
  match v with
  | VNull => "<nil>"
  | VBool b => if b then "true" else "false"
  | VNum f => fmt_v_float f
  | VStr s => s
  | VArr l => "[" +:+ join_sp (map fmt_v l) +:+ "]"
  | VObj kvs =>
      "map[" +:+
      join_sp (map (fun kv => kv.1 +:+ ":" +:+ kv.2)
                 (merge_sort kv_le
                    (map (fun kv => (kv.1, fmt_v kv.2)) kvs))) +:+
      "]"
  end.

(** [fmt.Fprintf(bb, ...)] appends the formatted text to the buffer. *)
Definition Fprintf (bb : bytes) (text : string) : bytes :=
  bb ++ of_string text.

Definition f64_zero : float64 := S754_zero false.
Definition f64_1e9 : float64 := of_Z 1000000000.

(** One pass of the loop body of [emitLine] for header [h]. *)
Definition emitField (mp : gmap string Value) (bb : bytes) (h : string)
  : bytes :=
  match mp !! h with
  | Some v =>
      match v with
      | VNum f64 =>
          if F64.eqb (Modf f64).2 f64_zero
          then Fprintf bb (String TAB (fmt_d (to_int int_oob f64)))
          else Fprintf bb (String TAB (fmt_f 5 f64))
      | _ => Fprintf bb (String TAB (fmt_v v))
      end
  | None => Fprintf bb (String TAB "-")
  end.

(** [emitLine]; slicing [headers[1:]] panics on an empty slice. *)
Definition emitLine (ts : Time) (headers : list string)
    (mp : gmap string Value) : outcome (bytes * bool) :=
  let bb := Fprintf [] (fmt_f 6 (F64.div (of_Z (UnixNano ts)) f64_1e9)) in
  match headers with
  | [] => Panic "slice bounds out of range [1:0]"
  | _ :: rest => Done (foldl (emitField mp) bb rest, true)
  end.

(** *** The processor state *)

Context {T : Type} `{!Tagger T}.

(** [tg] is the tagger the processor holds ([None] for a nil
    interface); the embedded [CorelightConfig] is [config]. *)
Record Corelight := {
  tg : option T;
  tagFields : gmap string (list string);
  tags : gmap string EntryTag;
  config : CorelightConfig
}.

Definition set_Prefix (p : string) (c : Corelight) : Corelight :=
  {| tg := tg c; tagFields := tagFields c; tags := tags c;
     config := {| Prefix := p |} |}.
Definition set_tg (t : option T) (c : Corelight) : Corelight :=
  {| tg := t; tagFields := tagFields c; tags := tags c;
     config := config c |}.
Definition set_tagFields (m : gmap string (list string)) (c : Corelight)
  : Corelight :=
  {| tg := tg c; tagFields := m; tags := tags c; config := config c |}.
Definition set_tags (m : gmap string EntryTag) (c : Corelight)
  : Corelight :=
  {| tg := tg c; tagFields := tagFields c; tags := m;
     config := config c |}.

Definition CorelightLoadConfig (vc : VariableConfig)
  : CorelightConfig * option error :=
  match MapTo vc with
  | (c, Some err) => (c, Some err)
  | (c, None) =>
      if String.eqb (Prefix c) "" then ({| Prefix := defaultPrefix |}, None)
      else (c, None)
  end.

(** *** Initialisation *)

(** The schema table, entry by entry as in the source. *)
Definition tagHeaders : list (string * string) := [
  ("conn",
   "ts,uid,id.orig_h,id.orig_p,id.resp_h,id.resp_p,proto,service,duration,id.orig_ip_bytes,id.resp_ip_bytes,conn_state,local_orig,local_resp,missed_bytes,history,id.orig_pkts,id.orig_ip_bytes,id.resp_pkts,id.resp_ip_bytes,tunnel_parents,vlan");
  ("dhcp",
   "ts,uids,client_addr,server_addr,mac,host_name,client_fqdn,domain,requested_addr,assigned_addr,lease_time,client_message,server_message,msg_types,duration");
  ("dns",
   "ts,uid,id.orig_h,id.orig_p,id.resp_h,id.resp_p,proto,trans_id,rtt,query,qclass,qclass_name,qtype,qtype_name,rcode,rcode_name,AA,TC,RD,RA,Z,answers,TTLs,rejected");
  ("files",
   "ts,fuid,tx_hosts,rx_hosts,conn_uids,source,depth,analyzers,mime_type,filename,duration,local_orig,is_orig,seen_bytes,total_bytes,missing_bytes,overflow_bytes,timedout,parent_fuid,md5,sha1,sha256,extracted,extracted_cutoff,extracted_size");
  ("http",
   "ts,uid,id.orig_h,id.orig_p,id.resp_h,id.resp_p,trans_depth,method,host,uri,referrer,version,user_agent,id.origin,request_body_len,id.response_body_len,status_code,status_msg,info_code,info_msg,tags,username,password,proxied,id.orig_fuids,id.orig_filenames,id.orig_mime_types,id.resp_fuids,id.resp_filenames,id.resp_mime_types");
  ("ssl",
   "ts,uid,id.orig_h,id.orig_p,id.resp_h,id.resp_p,version,cipher,curve,server_name,resumed,last_alert,next_protocol,established,cert_chain_fuids,client_cert_chain_fuids,subject,issuer,client_subject,client_issuer,validation_status");
  ("weird",
   "ts,uid,id.orig_h,id.orig_p,id.resp_h,id.resp_p,name,addl,notice,peer");
  ("x509",
   "ts,uid,version,serial,subject,issuer,not_valid_before,not_valid_after,key_alg,sig_alg,key_type,key_length,exponent,curve,dns,uri,email,ip,ca,path_len");
  ("ssh",
   "ts,uid,id.orig_h,id.orig_p,id.resp_h,id.resp_p,version,auth_success,auth_attempts,direction,client,server,cipher_alg,mac_alg,compression_alg,kex_alg,host_key_alg,host_key,inferences");
  ("sip",
   "ts,uid,id.orig_h,id.orig_p,id.resp_h,id.resp_p,trans_depth,method,uri,date,request_fromrequest_to,id.response_from,id.response_to,reply_to,call_id,seq,subject,request_path,id.response_path,user_agent,status_code,status_msg,warning,request_body_len,id.response_body_len,content_type");
  ("dpd",
   "ts,uid,id.orig_h,id.orig_p,id.resp_h,id.resp_p,proto,analyzer,failure_reason,packet_segment");
  ("snmp",
   "ts,uid,id.orig_h,id.orig_p,id.resp_h,id.resp_p,duration,version,community,get_requests,get_bulk_requests,get_responses,set_requests,display_string,up_since");
  ("smtp",
   "ts,uid,id.orig_h,id.orig_p,id.resp_h,id.resp_p,trans_depth,helo,mailfrom");
  ("pe",
   "ts,uid,machine,compile_ts,os,subsystem,is_exe,is_64bit,uses_aslr,uses_dep");
  ("tunnel",
   "ts,uid,id.orig_h,id.orig_p,id.resp_h,id.resp_p,tunnel_type,action");
  ("socks",
   "ts,uid,id.orig_h,id.orig_p,id.resp_h,id.resp_p,version,user,password,status,request,request_host,request_name,request_port,bound_host,bound_name");
  ("software",
   "ts,host,host_port,software_type,name,major,minor,minor2,minor3,addl,unparsed_version");
  ("syslog",
   "ts,uid,id.orig_h,id.orig_p,id.resp_h,id.resp_p,proto,facility,severity,message");
  ("rfb",
   "ts,uid,id.orig_h,id.orig_p,id.resp_h,id.resp_p,client_major_version,client_minor_version,server_major_version,server_minor_version,authentication_method,auth,share_flag,desktop_name,width,height");
  ("radius",
   "ts,uid,id.orig_h,id.orig_p,id.resp_h,id.resp_p,username,mac,remote_ip,connect_info,result,logged");
  ("rdp",
   "ts,uid,id.orig_h,id.orig_p,id.resp_h,id.resp_p,cookie,result,security_protocol,client_build,client_name,client_dig_product_id,desktop_width,desktop_height,requested_color_depth,cert_type,cert_count,cert_permanent,encryption_level,encryption_method");
  ("ftp",
   "ts,uid,id.orig_h,id.orig_p,id.resp_h,id.resp_p,user,password,command,arg,mime_type,file_size,reply_code,reply_msg,data_channel.passive,data_channel.orig_h,data_channel.resp_h,data_channel.resp_p,fuid");
  ("intel",
   "ts,uid,id.orig_h,id.orig_p,id.resp_h,id.resp_p,indicator,indicator_type,seen_where,seen_node,matched,sources,fuid,file_mime_type,file_desc");
  ("irc",
   "ts,uid,id.orig_h,id.orig_p,id.resp_h,id.resp_p,nick,user,command,value,additional_info,dcc_file_name,dcc_file_size,dcc_mime_type,fuid");
  ("kerberos",
   "ts,uid,id.orig_h,id.orig_p,id.resp_h,id.resp_p,request_type,client,service,success,error_msg,from,till,cipher,forwardable,renewable,client_cert,client_cert_fuid,server_cert_subject,server_cert_fuid");
  ("mysql",
   "ts,uid,id.orig_h,id.orig_p,id.resp_h,id.resp_p,cmd,arg,success,rows,id.response");
  ("modbus",
   "ts,uid,id.orig_h,id.orig_p,id.resp_h,id.resp_p,func,exception");
  ("notice",
   "ts,uid,id.orig_h,id.orig_p,id.resp_h,id.resp_p,fuid,mime,desc,proto,note,msg,sub,src,dst,p,n,peer_descr,actions,suppress_for,dropped,destination_country_code,destination_region,destination_city,destination_latitude,destination_longitude");
  ("signature",
   "ts,uid,id.orig_h,id.orig_p,id.resp_h,id.resp_p,note,sig_id,event_msg,sub_msg,sig_count,host_count");
  ("smb_mapping",
   "ts,uid,id.orig_h,id.orig_p,id.resp_h,id.resp_p,path,service,native_file_system,share_type");
  ("smb_files",
   "ts,uid,id.orig_h,id.orig_p,id.resp_h,id.resp_p,fuid,action,path,name,size,prev_name,modified,accessed,created,changed");
  ("zeekdnp3",
   "ts,uid,id,fc_request,fc_reply,iin")
].

(** The body of [for k, v = range tagHeaders] over the entries still to
    be visited.  The receiver is updated in place, so the tables built
    so far are part of the result also when the loop returns early. *)
Fixpoint init_loop (kvs : list (string * string)) (c : Corelight)
  : outcome (Corelight * option error) :=
  match kvs with
  | [] => Done (c, None)
  | (k, v) :: rest =>
      let tagName := Prefix (config c) +:+ k in
      let c := set_tagFields (<[tagName := Split v ","%char]> (tagFields c)) c in
      match tg c with
      | None => Panic "nil pointer dereference"
      | Some t =>
          match NegotiateTag tagName t with
          | (inr err, t') => Done (set_tg (Some t') c, Some err)
          | (inl tv, t') =>
              init_loop rest
                (set_tags (<[tagName := tv]> (tags c)) (set_tg (Some t') c))
          end
      end
  end.

(** [init].  Go visits the entries of a map in an unspecified order:
    [order] is the order of this run, a permutation of [tagHeaders].
    The parameters [cfg] and [tagger] are not used by the body. *)
Definition init (order : list (string * string)) (c : Corelight)
    (cfg : CorelightConfig) (tagger : option T)
  : outcome (Corelight * option error) :=
  let c := if String.eqb (Prefix (config c)) ""
           then set_Prefix defaultPrefix c else c in
  let c := set_tagFields ∅ c in
  let c := set_tags ∅ c in
  init_loop order c.

(** [NewCorelight]: the processor ([None] for a nil pointer) and the
    error. *)
Definition NewCorelight (order : list (string * string))
    (cfg : CorelightConfig) (tagger : option T)
  : outcome (option Corelight * option error) :=
  let rr := {| tg := tagger; tagFields := ∅; tags := ∅; config := cfg |} in
  '(rr, err) ← init order rr cfg tagger;
  match err with
  | Some e => Done (None, Some e)
  | None => Done (Some rr, None)
  end.

(** The dynamic type of the [interface{}] handed to [Config]. *)
Inductive dyn :=
| DynNil
| DynCorelightConfig (cfg : CorelightConfig)
| DynOther (type_name : string).

Definition Config (order : list (string * string)) (c : Corelight)
    (v : dyn) (tagger : option T) : outcome (Corelight * option error) :=
  match v with
  | DynNil => Done (c, Some ErrNilConfig)
  | DynCorelightConfig cfg => init order c cfg tagger
  | DynOther n =>
      Done (c, Some (Errorf ("Invalid configuration, unknown type type " +:+ n)))
  end.

(** *** Per-record conversion *)

Definition getTagTs (c : Corelight) (mp : gmap string Value)
  : string * Time * bool :=
  match mp !! "_path" with
  | None => ("", time_zero, false)
  | Some tagv =>
      match mp !! "ts" with
      | None => ("", time_zero, false)
      | Some tsv =>
          match tagv with
          | VStr tagval =>
              match tsv with
              | VStr tss =>
                  match time_Parse tss with
                  | None => ("", time_zero, false)
                  | Some ts => (Prefix (config c) +:+ tagval, ts, true)
                  end
              | _ => ("", time_zero, false)
              end
          | _ => ("", time_zero, false)
          end
      end
  end.

Definition process (c : Corelight) (mp : gmap string Value) (og : bytes)
  : outcome (string * Time * bytes) :=
  if Nat.eqb (size mp) 0 then Done (defaultTag, time_zero, og)
  else
    let '(tag, ts, ok) := getTagTs c mp in
    if negb ok then Done (defaultTag, ts, og)
    else
      match tagFields c !! tag with
      | None => Done (defaultTag, ts, og)
      | Some headers =>
          '(line, ok) ← emitLine ts headers mp;
          if negb ok then Done (defaultTag, ts, og)
          else Done (tag, ts, line)
      end.

Definition processLine (c : Corelight) (s : bytes)
  : outcome (string * Time * bytes) :=
  match IndexByte s lbrace_byte with
  | None => Done (defaultTag, time_zero, s)
  | Some idx =>
      let line := drop idx s in
      match json_Unmarshal line with
      | None => Done (defaultTag, time_zero, line)
      | Some mp => process c mp line
      end
  end.

(** *** Batches *)

(** [Process] receives a slice of pointers to records.  [store] holds
    the records the pointers refer to; a nil pointer is [None]. *)
#[local] Abbreviation store := (gmap loc Entry).

Definition set_Tag (tv : EntryTag) (e : Entry) : Entry :=
  {| TS := TS e; Tag := tv; Data := Data e |}.
Definition set_TS (t : Timestamp) (e : Entry) : Entry :=
  {| TS := t; Tag := Tag e; Data := Data e |}.
Definition set_Data (d : bytes) (e : Entry) : Entry :=
  {| TS := TS e; Tag := Tag e; Data := d |}.

(** The body of the loop of [Process] for one element of the slice.  A Go
    pointer always refers to a record; an address the store does not hold
    is treated like nil. *)
Definition Process_ent (c : Corelight) (h : store) (ent : option loc)
  : outcome store :=
  match ent with
  | None => Done h
  | Some l =>
      match h !! l with
      | None => Done h
      | Some e =>
          if Nat.eqb (length (Data e)) 0 then Done h
          else
            '(tag, ts, line) ← processLine c (Data e);
            if negb (String.eqb tag defaultTag) then
              match tags c !! tag with
              | Some tv =>
                  Done (<[l := set_Data line
                                 (set_TS (FromStandard ts)
                                    (set_Tag tv e))]> h)
              | None => Done h
              end
            else Done h
      end
  end.

Fixpoint Process_loop (c : Corelight) (ents : list (option loc))
    (h : store) : outcome store :=
  match ents with
  | [] => Done h
  | ent :: rest => h' ← Process_ent c h ent; Process_loop c rest h'
  end.

(** [Process]: the returned slice, the returned error and the records
    after the call. *)
Definition Process (c : Corelight) (ents : list (option loc)) (h : store)
  : outcome (list (option loc) * option error * store) :=
  if Nat.eqb (length ents) 0 then Done (ents, None, h)
  else h' ← Process_loop c ents h; Done (ents, None, h').

(** *** Notions used by the statements *)

(** The text [emitLine] writes first: seconds since the epoch. *)
Definition stamp_text (ts : Time) : string :=
  fmt_f 6 (F64.div (of_Z (UnixNano ts)) f64_1e9).

(** The text [emitField] writes after the tab for header [h]. *)
Definition field_text (mp : gmap string Value) (h : string) : string :=
  match mp !! h with
  | Some (VNum f64) =>
      if F64.eqb (Modf f64).2 f64_zero then fmt_d (to_int int_oob f64)
      else fmt_f 5 f64
  | Some v => fmt_v v
  | None => "-"
  end.

(** The payload holds a JSON object from its first opening brace on. *)
Definition decodes (data : bytes) (mp : gmap string Value) : Prop :=
  exists idx, IndexByte data lbrace_byte = Some idx /\
              json_Unmarshal (drop idx data) = Some mp.

(** The conditions under which a record is passed through. *)
Inductive failure (c : Corelight) (data : bytes) : Prop :=
| fail_empty :
    data = [] -> failure c data
| fail_no_brace :
    IndexByte data lbrace_byte = None -> failure c data
| fail_decode idx :
    IndexByte data lbrace_byte = Some idx ->
    json_Unmarshal (drop idx data) = None -> failure c data
| fail_empty_map mp :
    decodes data mp -> size mp = 0%nat -> failure c data
| fail_path mp :
    decodes data mp -> (forall s, mp !! "_path" <> Some (VStr s)) ->
    failure c data
| fail_ts mp :
    decodes data mp -> (forall s, mp !! "ts" <> Some (VStr s)) ->
    failure c data
| fail_ts_parse mp tss :
    decodes data mp -> mp !! "ts" = Some (VStr tss) ->
    time_Parse tss = None -> failure c data
| fail_category mp tagval :
    decodes data mp -> mp !! "_path" = Some (VStr tagval) ->
    tagFields c !! (Prefix (config c) +:+ tagval) = None -> failure c data
| fail_emit mp tag ts headers line :
    decodes data mp -> getTagTs c mp = (tag, ts, true) ->
    tagFields c !! tag = Some headers ->
    emitLine ts headers mp = Done (line, false) -> failure c data.

(** Every registered field list has at least the timestamp column. *)
Definition wf (c : Corelight) : Prop :=
  map_Forall (fun _ headers => headers <> []) (tagFields c).

(** The prefix in force: the configured one, [defaultPrefix] when it is
    empty. *)
Definition effective_prefix (p : string) : string :=
  if String.eqb p "" then defaultPrefix else p.

(** [c] is the processor [NewCorelight] returned for a run that visited
    the schema table in the order [order]. *)
Definition constructed (order : list (string * string))
    (cfg : CorelightConfig) (tagger : option T) (c : Corelight) : Prop :=
  order ≡ₚ tagHeaders /\
  NewCorelight order cfg tagger = Done (Some c, None).

(** The tables [init_loop] adds for the entries [kvs]. *)
Definition schema_of (p : string) (kvs : list (string * string))
  : list (string * list string) :=
  map (fun kv => (p +:+ kv.1, Split kv.2 ","%char)) kvs.

(** The error of the first failing negotiation when the names are
    negotiated in turn, [None] when every one succeeds. *)
Fixpoint first_failure (names : list string) (t : T) : option error :=
  match names with
  | [] => None
  | n :: rest =>
      match NegotiateTag n t with
      | (inr err, _) => Some err
      | (inl _, t') => first_failure rest t'
      end
  end.

(** A successful conversion of the decoded map [mp]: the tag, the
    timestamp and the line [process] returns when it does not give up. *)
Definition converted (c : Corelight) (mp : gmap string Value)
    (tag : string) (ts : Time) (line : bytes) : Prop :=
  exists headers,
    size mp <> 0%nat /\ getTagTs c mp = (tag, ts, true) /\
    tagFields c !! tag = Some headers /\
    emitLine ts headers mp = Done (line, true).

(** One complete rewrite of a record: tag, timestamp and payload all
    come from one successful conversion of the payload of [e]. *)
Definition rewritten (c : Corelight) (e e' : Entry) : Prop :=
  exists tag ts line tv,
    processLine c (Data e) = Done (tag, ts, line) /\
    tag <> defaultTag /\
    tags c !! tag = Some tv /\
    e' = {| TS := FromStandard ts; Tag := tv; Data := line |}.

(** What the loop body of [Process] does to the record [e]: the record
    that replaces it, [None] when the record is left as it is. *)
Definition rewrite_of (c : Corelight) (e : Entry) : outcome (option Entry) :=
  if Nat.eqb (length (Data e)) 0 then Done None
  else
    '(tag, ts, line) ← processLine c (Data e);
    if negb (String.eqb tag defaultTag) then
      match tags c !! tag with
      | Some tv =>
          Done (Some (set_Data line (set_TS (FromStandard ts) (set_Tag tv e))))
      | None => Done None
      end
    else Done None.

(** The tags handed out when the names are negotiated in turn, up to the
    first refusal, and the tagger after the last call. *)
Fixpoint negotiated (names : list string) (t : T)
  : list (string * EntryTag) * T :=
  match names with
  | [] => ([], t)
  | n :: rest =>
      match NegotiateTag n t with
      | (inr _, t') => ([], t')
      | (inl tv, t') =>
          let '(l, t'') := negotiated rest t' in ((n, tv) :: l, t'')
      end
  end.
End WithLib.

Arguments Corelight {_} T.

(** The records a batch points to, by address. *)
Abbreviation store := (gmap loc Entry).

End Corelight.

(** ** More of [strings] *)

Module Strings.

(** The rest of [s] after the prefix [pre], [None] when [s] does not
    start with [pre] ([strings.CutPrefix]). *)
Fixpoint CutPrefix (s pre : string) {struct pre} : option string :=
  match pre with
  | EmptyString => Some s
  | String a pre' =>
      match s with
      | String b s' => if Ascii.eqb a b then CutPrefix s' pre' else None
      | EmptyString => None
      end
  end.

(** The text before and after the first occurrence of [sep] in [s]
    ([strings.Cut]). *)
Fixpoint Cut (s sep : string) : option (string * string) :=
  match CutPrefix s sep with
  | Some rest => Some (EmptyString, rest)
  | None =>
      match s with
      | EmptyString => None
      | String a s' => (fun p => (String a p.1, p.2)) <$> Cut s' sep
      end
  end.

(** [strings.SplitN(s, sep, 2)] for a separator that is not empty: the
    text before and after the first separator, or [s] alone. *)
Definition SplitN2 (s sep : string) : list string :=
  match Cut s sep with
  | Some (a, b) => [a; b]
  | None => [s]
  end.

(** Strings of ASCII bytes. *)
Definition ascii_only (s : string) : bool :=
  string_forallb (fun a => (nat_of_ascii a <? 128)%nat) s.

Definition lower (a : ascii) : ascii :=
  let n := nat_of_ascii a in
  if ((65 <=? n) && (n <=? 90))%nat then ascii_of_nat (n + 32) else a.

(** [strings.ToLower] on a string of ASCII bytes. *)
Fixpoint to_lower (s : string) : string :=
  match s with
  | EmptyString => EmptyString
  | String a s' => String (lower a) (to_lower s')
  end.

(** The ASCII white space: tab, line feed, vertical tab, form feed,
    carriage return and space. *)
Definition is_space (a : ascii) : bool :=
  let n := nat_of_ascii a in
  ((9 <=? n) && (n <=? 13) || (n =? 32))%nat.

Fixpoint trim_left (s : string) : string :=
  match s with
  | EmptyString => EmptyString
  | String a s' => if is_space a then trim_left s' else s
  end.

Fixpoint trim_right (s : string) : string :=
  match s with
  | EmptyString => EmptyString
  | String a s' =>
      match trim_right s' with
      | EmptyString => if is_space a then EmptyString else String a EmptyString
      | r => String a r
      end
  end.

(** [strings.TrimSpace] on a string of ASCII bytes. *)
Definition trim (s : string) : string := trim_right (trim_left s).

End Strings.
Import Strings.

(** [strings.ToLower] and [strings.TrimSpace] work on Unicode code
    points; on strings of ASCII bytes they are [to_lower] and [trim]. *)
Class GoStrings := {
  ToLower : string -> string;
  ToLower_ascii : forall s, ascii_only s = true -> ToLower s = to_lower s;
  TrimSpace : string -> string;
  TrimSpace_ascii : forall s, ascii_only s = true -> TrimSpace s = trim s
}.

(** What the relay configuration takes from the ingest library:
    [config.IngestConfig] with its [Verify] method, and the test
    [strings.ContainsAny(name, ingest.FORBIDDEN_TAG_SET)]. *)
Class IngestLib `{GoTypes} := {
  IngestConfig : Type;
  Verify : IngestConfig -> option error;
  forbidden_tag : string -> bool;
  errors_New : string -> error
}.

(** ** The configuration of the relay *)

Module Relay.

Abbreviation loc := nat.

Definition MAX_CONFIG_SIZE : Z := 1024 * 1024 * 2.

(** [bindType] and [readerType] are [int]s.  The constants are numbered
    by [iota], the index of the constant in the block, which starts with
    [MAX_CONFIG_SIZE] at index 0. *)
Definition bindType := Z.
Definition readerType := Z.

Definition tcp : bindType := 1.
Definition udp : bindType := 2.
Definition tcp6 : bindType := 3.
Definition udp6 : bindType := 4.

Definition lineReader : readerType := 5.
Definition rfc5424Reader : readerType := 6.

Record listener := {
  Bind_String : string;
  Tag_Name : string;
  Ignore_Timestamps : bool;
  Assume_Local_Timezone : bool;
  Reader_Type : string
}.

Definition set_Tag_Name (t : string) (v : listener) : listener :=
  {| Bind_String := Bind_String v; Tag_Name := t;
     Ignore_Timestamps := Ignore_Timestamps v;
     Assume_Local_Timezone := Assume_Local_Timezone v;
     Reader_Type := Reader_Type v |}.

Definition bindType_TCP (bt : bindType) : bool :=
  if (bt =? tcp) || (bt =? tcp6) then true else false.

Definition bindType_UDP (bt : bindType) : bool :=
  if (bt =? udp) || (bt =? udp6) then true else false.

Definition bindType_String (bt : bindType) : string :=
  if bt =? tcp then "tcp"
  else if bt =? tcp6 then "tcp6"
  else if bt =? udp then "udp"
  else if bt =? udp6 then "udp6"
  else "unknown".

Definition readerType_String (rt : readerType) : string :=
  if rt =? lineReader then "LINE"
  else if rt =? rfc5424Reader then "RFC5424"
  else "UNKNOWN".

Section WithLib.
Context `{IngestLib} `{!GoStrings}.

(** The listeners are held by pointer: [Listener] maps a name to the
    address of a listener, [heap] holds the listeners. *)
Record cfgType := {
  Global : IngestConfig;
  Listener : gmap string loc
}.

#[local] Abbreviation heap := (gmap loc listener).

Definition translateBindType (bstr : string)
  : bindType * string * option error :=
  match SplitN2 bstr "://" with
  | [b0; b1] =>
      let id := ToLower b0 in
      if String.eqb id "tcp" then (tcp, b1, None)
      else if String.eqb id "udp" then (udp, b1, None)
      else if String.eqb id "tcp6" then (tcp6, b1, None)
      else if String.eqb id "udp6" then (udp6, b1, None)
      else (-1, "",
            Some (errors_New ("invalid bind protocol specifier of " +:+ id)))
  | _ => (tcp, bstr, None)
  end.

Definition translateReaderType (s : string) : readerType * option error :=
  let s := ToLower (TrimSpace s) in
  if String.eqb s "line" then (lineReader, None)
  else if String.eqb s "rfc5424" then (rfc5424Reader, None)
  else if String.eqb s "" then (lineReader, None)
  else (-1, Some (errors_New "invalid reader type")).

(** The body of the loop of [verifyConfig] over the entries still to be
    visited: [bindMp] records the bind strings seen so far.  A listener
    without tag name is given the name [default] in place. *)
Fixpoint verify_loop (kvs : list (string * loc))
    (bindMp : gmap string string) (h : heap)
  : outcome (heap * option error) :=
  match kvs with
  | [] => Done (h, None)
  | (k, l) :: rest =>
      match h !! l with
      | None => Panic "nil pointer dereference"
      | Some v =>
          if Nat.eqb (String.length (Bind_String v)) 0 then
            Done (h, Some (errors_New ("No Bind-String provided for " +:+ k)))
          else
            let '(v, h) :=
              if Nat.eqb (String.length (Tag_Name v)) 0
              then (set_Tag_Name "default" v,
                    <[l := set_Tag_Name "default" v]> h)
              else (v, h) in
            if forbidden_tag (Tag_Name v) then
              Done (h, Some (errors_New
                               ("Invalid characters in the Tag-Name for " +:+ k)))
            else
              match bindMp !! Bind_String v with
              | Some n =>
                  Done (h, Some (errors_New
                                   ("Bind-String for " +:+ k +:+
                                    " already in use by " +:+ n)))
              | None => verify_loop rest (<[Bind_String v := k]> bindMp) h
              end
      end
  end.

(** [verifyConfig]: the listeners after the call and the error.  [order]
    is the order in which this run visits [c.Listener]. *)
Definition verifyConfig (order : list (string * loc)) (c : cfgType)
    (h : heap) : outcome (heap * option error) :=
  match Verify (Global c) with
  | Some err => Done (h, Some err)
  | None =>
      if Nat.eqb (size (Listener c)) 0 then
        Done (h, Some (errors_New "No listeners specified"))
      else verify_loop order ∅ h
  end.

(** The loop of [Tags]: the tag names collected so far and the set of
    names seen. *)
Fixpoint Tags_loop (kvs : list (string * loc)) (h : heap)
    (tags : list string) (tagMp : gmap string bool)
  : outcome (list string) :=
  match kvs with
  | [] => Done tags
  | (_, l) :: rest =>
      match h !! l with
      | None => Panic "nil pointer dereference"
      | Some v =>
          if Nat.eqb (String.length (Tag_Name v)) 0 then
            Tags_loop rest h tags tagMp
          else
            match tagMp !! Tag_Name v with
            | None =>
                Tags_loop rest h (tags ++ [Tag_Name v])
                  (<[Tag_Name v := true]> tagMp)
            | Some _ => Tags_loop rest h tags tagMp
            end
      end
  end.

(** [Tags]; [order] is the order in which this run visits
    [c.Listener]. *)
Definition Tags (order : list (string * loc)) (h : heap)
  : outcome (list string * option error) :=
  tags ← Tags_loop order h [] ∅;
  if Nat.eqb (length tags) 0
  then Done ([], Some (errors_New "No tags specified"))
  else Done (tags, None).

(** *** Notions used by the statements *)

(** The listener after [verifyConfig] has visited it. *)
Definition tagged (v : listener) : listener :=
  if Nat.eqb (String.length (Tag_Name v)) 0 then set_Tag_Name "default" v
  else v.

(** What [verifyConfig] asks of one listener. *)
Definition acceptable (v : listener) : Prop :=
  Bind_String v <> "" /\ forbidden_tag (Tag_Name (tagged v)) = false.

(** The listeners a run visits, in the order of the visit. *)
Definition visited (order : list (string * loc)) (h : heap)
  : list (option listener) :=
  map (fun kl => h !! kl.2) order.

(** Their bind strings. *)
Definition bind_strings (order : list (string * loc)) (h : heap)
  : list (option string) :=
  map (fun o : option listener => Bind_String <$> o) (visited order h).

(** The listeners after a run that visited [order]: the visited ones
    have a tag name, the others are as they were. *)
Definition after (order : list (string * loc)) (h h' : heap) : Prop :=
  forall l, h' !! l = if bool_decide (l ∈ order.*2) then tagged <$> h !! l
                      else h !! l.

End WithLib.

Abbreviation heap := (gmap loc listener).

End Relay.

(** ** An executable instance of the collaborators *)

(** [Ref] implements the library operations the processor calls, so that
    the processor can be run on concrete payloads: a JSON decoder for
    [map[string]interface{}] targets, an RFC 3339 timestamp parser, and the
    shortest-decimal rendering of a float64.  Bytes above 127 inside JSON
    strings are copied as they are (Go does the same for valid UTF-8). *)
Module Ref.

(** *** Decimal text to float64 *)

(** [(-1)^neg * M * 10^E] rounded to the nearest binary64, ties to even;
    [nd] bounds the number of decimal digits of [M].  The quotient for a
    negative [E] keeps more than 64 bits and folds the remainder into a
    sticky bit, so that rounding to 53 bits is correct. *)
Definition of_decimal (neg : bool) (M : Z) (nd : Z) (E : Z) : float64 :=
  let sg (z : Z) := if neg then - z else z in
  if M =? 0 then S754_zero neg
  else if 310 <? E then S754_infinity neg
  else if nd + E <? -330 then S754_zero neg
  else if 0 <=? E then binary_normalize prec emax (sg (M * 10 ^ E)) 0 neg
  else
    let D := 10 ^ (- E) in
    let s := Z.max 0 (66 + Z.log2 D - Z.log2 M) in
    let q := (M * 2 ^ s) / D in
    let r := (M * 2 ^ s) mod D in
    let q' := 2 * q + (if r =? 0 then 0 else 1) in
    binary_normalize prec emax (sg q') (- s - 1) neg.

(** *** JSON *)

Definition is_ws (c : ascii) : bool :=
  match c with
  | " "%char | "009"%char | "010"%char | "013"%char => true
  | _ => false
  end.

Fixpoint skip_ws (s : list ascii) : list ascii :=
  match s with
  | c :: r => if is_ws c then skip_ws r else s
  | [] => []
  end.

Definition digit_val (c : ascii) : option Z :=
  Z.of_nat <$> Ascii.is_nat c.

(** A run of decimal digits: accumulated value, number of digits, rest. *)
Fixpoint take_digits (s : list ascii) (acc : Z) (n : Z)
  : Z * Z * list ascii :=
  match s with
  | c :: r =>
      match digit_val c with
      | Some d => take_digits r (acc * 10 + d) (n + 1)
      | None => (acc, n, s)
      end
  | [] => (acc, n, s)
  end.

(** The JSON number grammar: an optional minus sign; a zero or a digit
    run without leading zero; optionally a point and digits; optionally
    an exponent mark, a sign and digits. *)
Definition parse_number (s : list ascii) : option (float64 * list ascii) :=
  let '(neg, s) := match s with
                   | "-"%char :: r => (true, r)
                   | _ => (false, s)
                   end in
  let '(ip, ni, s1) := take_digits s 0 0 in
  if ni =? 0 then None
  else if (1 <? ni) && (match s with "0"%char :: _ => true | _ => false end)
  then None
  else
    let frac := match s1 with
                | "."%char :: r =>
                    let '(m, nf, r') := take_digits r ip 0 in
                    if nf =? 0 then None else Some (m, nf, r')
                | _ => Some (ip, 0, s1)
                end in
    match frac with
    | None => None
    | Some (m, nf, s2) =>
        let expo := match s2 with
                    | ("e" | "E")%char :: r =>
                        let '(eneg, r) := match r with
                                          | "-"%char :: r' => (true, r')
                                          | "+"%char :: r' => (false, r')
                                          | _ => (false, r)
                                          end in
                        let '(ev, ne, r') := take_digits r 0 0 in
                        if ne =? 0 then None
                        else Some ((if eneg then - ev else ev), r')
                    | _ => Some (0, s2)
                    end in
        match expo with
        | None => None
        | Some (ev, s3) =>
            let f := of_decimal neg m (ni + nf) (ev - nf) in
            if is_finite f then Some (f, s3) else None
        end
    end.

Definition hex_val (c : ascii) : option Z :=
  match c with
  | ("a" | "A")%char => Some 10 | ("b" | "B")%char => Some 11
  | ("c" | "C")%char => Some 12 | ("d" | "D")%char => Some 13
  | ("e" | "E")%char => Some 14 | ("f" | "F")%char => Some 15
  | _ => digit_val c
  end.

Definition hex4 (a b c d : ascii) : option Z :=
  x ← hex_val a; y ← hex_val b; z ← hex_val c; w ← hex_val d;
  Some (((x * 16 + y) * 16 + z) * 16 + w).

Definition chr (n : Z) : ascii := ascii_of_N (Z.to_N n).

(** The UTF-8 encoding of a code point. *)
Definition utf8 (cp : Z) : list ascii :=
  if cp <? 128 then [chr cp]
  else if cp <? 2048 then [chr (192 + cp / 64); chr (128 + cp mod 64)]
  else if cp <? 65536 then
    [chr (224 + cp / 4096); chr (128 + (cp / 64) mod 64);
     chr (128 + cp mod 64)]
  else
    [chr (240 + cp / 262144); chr (128 + (cp / 4096) mod 64);
     chr (128 + (cp / 64) mod 64); chr (128 + cp mod 64)].

Definition is_surrogate (cp : Z) : bool := (55296 <=? cp) && (cp <? 57344).

Fixpoint string_of_chars (l : list ascii) : string :=
  match l with
  | [] => EmptyString
  | c :: r => String c (string_of_chars r)
  end.

(** The body of a string literal, after the opening quote. *)
Fixpoint parse_string (s : list ascii) : option (list ascii * list ascii) :=
  match s with
  | [] => None
  | "034"%char :: r => Some ([], r)
  | "\"%char :: "u"%char :: a :: b :: c :: d :: r =>
      match hex4 a b c d with
      | None => None
      | Some cp =>
          if is_surrogate cp then
            match r with
            | "\"%char :: "u"%char :: a' :: b' :: c' :: d' :: r' =>
                match hex4 a' b' c' d' with
                | Some lo =>
                    if (cp <? 56320) && (56320 <=? lo) && (lo <? 57344)
                    then
                      (fun p => (utf8 (65536 + (cp - 55296) * 1024
                                       + (lo - 56320)) ++ p.1, p.2))
                        <$> parse_string r'
                    else (fun p => (utf8 65533 ++ p.1, p.2))
                           <$> parse_string r
                | None => None
                end
            | _ => (fun p => (utf8 65533 ++ p.1, p.2)) <$> parse_string r
            end
          else (fun p => (utf8 cp ++ p.1, p.2)) <$> parse_string r
      end
  | "\"%char :: e :: r =>
      let lit (c : ascii) := (fun p => (c :: p.1, p.2)) <$> parse_string r in
      match e with
      | "034"%char => lit "034"%char
      | "\"%char => lit "\"%char
      | "/"%char => lit "/"%char
      | "b"%char => lit "008"%char
      | "f"%char => lit "012"%char
      | "n"%char => lit "010"%char
      | "r"%char => lit "013"%char
      | "t"%char => lit "009"%char
      | _ => None
      end
  | c :: r =>
      if (nat_of_ascii c <? 32)%nat then None
      else (fun p => (c :: p.1, p.2)) <$> parse_string r
  end.

Definition expect (c : ascii) (s : list ascii) : option (list ascii) :=
  match s with
  | x :: r => if Ascii.eqb x c then Some r else None
  | [] => None
  end.

Fixpoint expect_word (w : list ascii) (s : list ascii)
  : option (list ascii) :=
  match w with
  | [] => Some s
  | c :: w' => s' ← expect c s; expect_word w' s'
  end.

(** A Go map keeps one value per key: a repeated key replaces the
    earlier value. *)
Definition put (k : string) (v : Value) (kvs : list (string * Value))
  : list (string * Value) :=
  filter (fun kv => kv.1 ≠ k) kvs ++ [(k, v)].

(** A JSON value and the text after it.  [fuel] bounds the number of
    values read. *)
Fixpoint parse_value (fuel : nat) (s : list ascii)
  : option (Value * list ascii) :=
  match fuel with
  | O => None
  | S fuel =>
      match skip_ws s with
      | "n"%char :: r => r' ← expect_word ["u"; "l"; "l"]%char r; Some (VNull, r')
      | "t"%char :: r => r' ← expect_word ["r"; "u"; "e"]%char r; Some (VBool true, r')
      | "f"%char :: r =>
          r' ← expect_word ["a"; "l"; "s"; "e"]%char r; Some (VBool false, r')
      | "034"%char :: r =>
          '(cs, r') ← parse_string r; Some (VStr (string_of_chars cs), r')
      | "["%char :: r =>
          match skip_ws r with
          | "]"%char :: r' => Some (VArr [], r')
          | _ => '(l, r') ← parse_elems fuel r; Some (VArr l, r')
          end
      | "{"%char :: r =>
          match skip_ws r with
          | "}"%char :: r' => Some (VObj [], r')
          | _ => '(kvs, r') ← parse_members fuel [] r; Some (VObj kvs, r')
          end
      | s' => '(f, r) ← parse_number s'; Some (VNum f, r)
      end
  end
(** the elements of an array up to the closing bracket *)
with parse_elems (fuel : nat) (s : list ascii)
  : option (list Value * list ascii) :=
  match fuel with
  | O => None
  | S fuel =>
      '(v, r) ← parse_value fuel s;
      match skip_ws r with
      | ","%char :: r' => '(l, r'') ← parse_elems fuel r'; Some (v :: l, r'')
      | "]"%char :: r' => Some ([v], r')
      | _ => None
      end
  end
(** the members of an object up to the closing brace *)
with parse_members (fuel : nat) (acc : list (string * Value))
    (s : list ascii) : option (list (string * Value) * list ascii) :=
  match fuel with
  | O => None
  | S fuel =>
      r0 ← expect "034"%char (skip_ws s);
      '(cs, r1) ← parse_string r0;
      r2 ← expect ":"%char (skip_ws r1);
      '(v, r3) ← parse_value fuel r2;
      let acc := put (string_of_chars cs) v acc in
      match skip_ws r3 with
      | ","%char :: r' => parse_members fuel acc r'
      | "}"%char :: r' => Some (acc, r')
      | _ => None
      end
  end.

(** [json.Unmarshal] into a [map[string]interface{}]: the text must be
    one JSON object, or [null] (which leaves no entries), with only
    white space after it. *)
Definition unmarshal (b : bytes) : option (gmap string Value) :=
  let s := map ascii_of_byte b in
  '(v, r) ← parse_value (S (length s)) s;
  match skip_ws r with
  | [] =>
      match v with
      | VObj kvs => Some (list_to_map kvs)
      | VNull => Some ∅
      | _ => None
      end
  | _ => None
  end.

(** *** Timestamps *)

(** An instant: seconds since the Unix epoch and nanoseconds within the
    second. *)
Record RTime := { unix_sec : Z; nsec : Z }.

(** The zero [time.Time] is January 1, year 1, 00:00:00 UTC. *)
Definition rtime_zero : RTime := {| unix_sec := -62135596800; nsec := 0 |}.

Definition wrap64 (z : Z) : Z := (z + 2 ^ 63) mod 2 ^ 64 - 2 ^ 63.

(** [UnixNano] is computed in 64-bit arithmetic. *)
Definition rtime_UnixNano (t : RTime) : Z :=
  wrap64 (unix_sec t * 1000000000 + nsec t).

Definition rtime_UnixNano_int64 (t : RTime) :
  int_min <= rtime_UnixNano t <= int_max.
Proof.
  unfold rtime_UnixNano, wrap64, int_min, int_max.
  pose proof (Z.mod_pos_bound (unix_sec t * 1000000000 + nsec t + 2 ^ 63)
                (2 ^ 64) ltac:(lia)).
  lia.
Qed.

Definition int_min_int64 : int_min <= int_min <= int_max.
Proof. unfold int_min, int_max. lia. Qed.

Definition two (a b : ascii) : option Z :=
  x ← digit_val a; y ← digit_val b; Some (10 * x + y).

Definition is_leap (y : Z) : bool :=
  (y mod 4 =? 0) && (negb (y mod 100 =? 0) || (y mod 400 =? 0)).

Definition days_in (y m : Z) : Z :=
  if m =? 2 then (if is_leap y then 29 else 28)
  else if (m =? 4) || (m =? 6) || (m =? 9) || (m =? 11) then 30 else 31.

(** Days from 1970-01-01 to the given civil date. *)
Definition days_from_civil (y m d : Z) : Z :=
  let y' := if m <=? 2 then y - 1 else y in
  let era := y' / 400 in
  let yoe := y' - era * 400 in
  let mp := (m + 9) mod 12 in
  let doy := (153 * mp + 2) / 5 + d - 1 in
  let doe := yoe * 365 + yoe / 4 - yoe / 100 + doy in
  era * 146097 + doe - 719468.

Definition in_range (lo x hi : Z) : bool := (lo <=? x) && (x <=? hi).

(** [time.Parse(time.RFC3339Nano, s)]: date, [T], time of day, an
    optional fraction of a second, and [Z] or a numeric offset. *)
Definition parse_rfc3339 (s : string) : option RTime :=
  match String.list_ascii_of_string s with
  | y1 :: y2 :: y3 :: y4 :: "-"%char :: m1 :: m2 :: "-"%char :: d1 :: d2 ::
    "T"%char :: h1 :: h2 :: ":"%char :: i1 :: i2 :: ":"%char :: s1 :: s2 ::
    rest =>
      yh ← two y1 y2; yl ← two y3 y4;
      mo ← two m1 m2; dd ← two d1 d2;
      hh ← two h1 h2; mi ← two i1 i2; ss ← two s1 s2;
      let yy := yh * 100 + yl in
      if negb (in_range 1 mo 12 && in_range 1 dd (days_in yy mo) &&
               in_range 0 hh 23 && in_range 0 mi 59 && in_range 0 ss 59)
      then None
      else
        '(ns, rest) ←
          match rest with
          | ("." | ",")%char :: r =>
              let '(v, n, r') := take_digits r 0 0 in
              if n =? 0 then None
              else Some ((if n <=? 9 then v * 10 ^ (9 - n)
                          else v / 10 ^ (n - 9)), r')
          | _ => Some (0, rest)
          end;
        off ←
          match rest with
          | ["Z"%char] => Some 0
          | [sg; a; b; ":"%char; c; d] =>
              oh ← two a b; om ← two c d;
              if negb (in_range 0 oh 23 && in_range 0 om 59) then None
              else match sg with
                   | "+"%char => Some (oh * 3600 + om * 60)
                   | "-"%char => Some (- (oh * 3600 + om * 60))
                   | _ => None
                   end
          | _ => None
          end;
        Some {| unix_sec := days_from_civil yy mo dd * 86400
                            + hh * 3600 + mi * 60 + ss - off;
                nsec := ns |}
  | _ => None
  end.

(** *** Shortest decimal rendering of a float64 *)

(** [num / den] rounded to the nearest integer, ties to even. *)
Definition round_div (num den : Z) : Z :=
  let q := num / den in
  let r := num mod den in
  match 2 * r ?= den with
  | Lt => q
  | Gt => q + 1
  | Eq => if Z.even q then q else q + 1
  end.

(** The value [m * 2^e] as a fraction. *)
Definition frac_of (m : positive) (e : Z) : Z * Z :=
  if 0 <=? e then (Zpos m * 2 ^ e, 1) else (Zpos m, 2 ^ (- e)).

(** [10^k <= num / den]. *)
Definition pow10_le (k : Z) (num den : Z) : bool :=
  if 0 <=? k then 10 ^ k * den <=? num else den <=? num * 10 ^ (- k).

(** The decimal exponent [k] with [10^k <= m * 2^e < 10^(k+1)]. *)
Definition decimal_exponent (m : positive) (e : Z) : Z :=
  let '(num, den) := frac_of m e in
  let est := ((Z.log2 (Zpos m) + e) * 30103) / 100000 in
  if pow10_le (est + 1) num den then est + 1
  else if pow10_le est num den then est
  else est - 1.

(** [m * 2^e] rounded to [n] significant decimal digits: the [n]-digit
    integer and the decimal exponent of its first digit. *)
Definition round_digits (m : positive) (e : Z) (n : Z) : Z * Z :=
  let '(num, den) := frac_of m e in
  let k := decimal_exponent m e in
  let a := n - 1 - k in
  let N := if 0 <=? a then round_div (num * 10 ^ a) den
           else round_div num (den * 10 ^ (- a)) in
  if N =? 10 ^ n then (10 ^ (n - 1), k + 1) else (N, k).

(** The least number of digits, at most 17, that reads back as the
    same float64. *)
Fixpoint shortest (fuel : nat) (n : Z) (m : positive) (e : Z) : Z * Z * Z :=
  let '(N, k) := round_digits m e n in
  match fuel with
  | O => (N, k, n)
  | S fuel' =>
      match of_decimal false N n (k - n + 1) with
      | S754_finite _ m' e' =>
          if (Pos.eqb m m') && (e =? e') then (N, k, n)
          else shortest fuel' (n + 1) m e
      | _ => shortest fuel' (n + 1) m e
      end
  end.

Fixpoint zeros (n : nat) : string :=
  match n with O => "" | S n' => String "0" (zeros n') end.

Definition fmt_exp (k : Z) : string :=
  (if k <? 0 then "-" else "+") +:+
  (if Z.abs k <? 10 then "0" else "") +:+ fmt_d (Z.abs k).

(** [%v] of a float64: the shortest digits, in exponent form when the
    decimal exponent is below -4 or at least 6. *)
Definition shortest_text (f : float64) : string :=
  match f with
  | S754_nan => "NaN"
  | S754_infinity s => if s then "-Inf" else "+Inf"
  | S754_zero s => if s then "-0" else "0"
  | S754_finite s m e =>
      let '(N, k, n) := shortest 16 1 m e in
      let ds := fixed_digits (Z.to_nat n) N in
      let dp := k + 1 in
      (if s then "-" else "") +:+
      (if (k <? -4) || (6 <=? k) then
         String.substring 0 1 ds +:+
         (if 1 <? n then "." +:+ String.substring 1 (Z.to_nat (n - 1)) ds
          else "") +:+
         "e" +:+ fmt_exp k
       else if dp <=? 0 then "0." +:+ zeros (Z.to_nat (- dp)) +:+ ds
       else if n <=? dp then ds +:+ zeros (Z.to_nat (dp - n))
       else String.substring 0 (Z.to_nat dp) ds +:+ "." +:+
            String.substring (Z.to_nat dp) (Z.to_nat (n - dp)) ds)
  end.

(** *** A tagger *)

(** A tagger that hands out consecutive identifiers and refuses a new
    name once [limit] names are known. *)
Record RTagger := { known : list string; limit : nat }.

Fixpoint index_of (name : string) (l : list string) : option nat :=
  match l with
  | [] => None
  | x :: r => if String.eqb x name then Some O else S <$> index_of name r
  end.

Definition negotiate (name : string) (t : RTagger) : (Z + string) * RTagger :=
  match index_of name (known t) with
  | Some i => (inl (Z.of_nat i), t)
  | None =>
      if (length (known t) <? limit t)%nat
      then (inl (Z.of_nat (length (known t))),
            {| known := known t ++ [name]; limit := limit t |})
      else (inr "all tags are in use", t)
  end.

(** *** The instance *)

#[export] Instance types : GoTypes := {|
  error := string;
  Time := RTime;
  EntryTag := Z;
  Timestamp := RTime;
  VariableConfig := option string
|}.

#[export] Instance lib : GoLib := {|
  time_zero := rtime_zero;
  time_Parse := parse_rfc3339;
  UnixNano := rtime_UnixNano;
  UnixNano_int64 := rtime_UnixNano_int64;
  json_Unmarshal := unmarshal;
  FromStandard := fun t => t;
  fmt_v_float := shortest_text;
  int_oob := fun _ => int_min;
  int_oob_int64 := fun _ => int_min_int64;
  MapTo := fun vc => ({| Prefix := default "" vc |}, None);
  ErrNilConfig := "nil configuration";
  Errorf := fun msg => msg
|}.

#[export] Instance tagger : Tagger RTagger := negotiate.

(** *** Sample data *)

(** JSON text is written with apostrophes in place of double quotes. *)
Fixpoint quoted (s : string) : string :=
  match s with
  | EmptyString => EmptyString
  | String "'" r => String "034" (quoted r)
  | String a r => String a (quoted r)
  end.

Definition json (s : string) : bytes := of_string (quoted s).

(** A processor built with the default prefix over a tagger that
    accepts every category. *)
Definition tagger0 : RTagger := {| known := []; limit := 100 |}.
Definition cfg0 : CorelightConfig := {| Prefix := "" |}.

Definition blank : Corelight.Corelight RTagger :=
  {| Corelight.tg := Some tagger0; Corelight.tagFields := ∅;
     Corelight.tags := ∅; Corelight.config := cfg0 |}.

Definition demo : Corelight.Corelight RTagger :=
  match Corelight.NewCorelight Corelight.tagHeaders cfg0 (Some tagger0) with
  | Done (Some c, _) => c
  | _ => blank
  end.

Definition entry (t : RTime) (tag : Z) (data : bytes) : Corelight.Entry :=
  {| Corelight.TS := t; Corelight.Tag := tag; Corelight.Data := data |}.

(** A record as it arrives: no timestamp yet, the tag of its source. *)
Definition arriving (data : bytes) : Corelight.Entry :=
  entry rtime_zero 65535 data.

(** The record at address 0 after a batch holding just that record. *)
Definition transform (c : Corelight.Corelight RTagger) (e : Corelight.Entry)
  : option Corelight.Entry :=
  match Corelight.Process c [Some 0%nat] {[0%nat := e]} with
  | Done (_, _, h) => h !! 0%nat
  | Panic _ => None
  end.

(** The scenario of the specification. *)
Definition conn_payload : bytes :=
  json "{'_path':'conn','ts':'2021-01-01T00:00:00.000000Z','uid':'abc','id.orig_h':'1.2.3.4'}".


(** A connection record with numeric fields. *)
Definition numeric_payload : bytes :=
  json "{'_path':'conn','ts':'2021-01-01T00:00:00Z','id.orig_p':5,'duration':5.5}".


(** A string value, in the last column, that is itself a JSON object. *)
Definition nested_payload : bytes :=
  json "{'_path':'weird','ts':'2021-01-01T00:00:00Z','peer':'{\'_path\':\'dpd\',\'ts\':\'2021-01-02T00:00:00Z\'}'}".

(** A record of a category the schema does not know. *)
Definition foreign_payload : bytes :=
  json "{'_path':'netflow','ts':'2021-01-01T00:00:00Z'}".

(** A DNS record with values of every JSON kind, one of them a whole
    number too large for an [int64]. *)
Definition dns_payload : bytes :=
  json "{'_path':'dns','ts':'2021-01-01T00:00:00.123456789Z','TTLs':[3600.0,60.5],'AA':true,'Z':0,'rtt':0.004,'query':null,'answers':{'b':1,'a':'x'},'trans_id':-7,'rejected':1e30}".

(** A record behind a syslog header, with a numeric zone offset. *)
Definition framed_payload : bytes :=
  json "<13>Jan  1 00:00:00 sensor zeek: {'_path':'weird','ts':'2021-01-01T00:00:00+01:00','name':'x'}".

(** Records that are not converted. *)
Definition plain_payload : bytes := of_string "hello".
Definition broken_payload : bytes := json "{'_path':'weird','ts':".
Definition undated_payload : bytes := json "{'_path':'weird','ts':'yesterday'}".
Definition numeric_ts_payload : bytes := json "{'_path':'weird','ts':1609459200}".

(** A tagger that has room for three names only. *)
Definition tagger3 : RTagger := {| known := []; limit := 3 |}.

(** A processor value that holds that tagger and has not been
    initialised. *)
Definition blank3 : Corelight.Corelight RTagger :=
  {| Corelight.tg := Some tagger3; Corelight.tagFields := ∅;
     Corelight.tags := ∅; Corelight.config := cfg0 |}.

(** What a payload decodes to, from its first opening brace on. *)
Definition decoded (data : bytes) : gmap string Value :=
  default ∅ (idx ← IndexByte data lbrace_byte; unmarshal (drop idx data)).

Definition parsed (s : string) : RTime := default rtime_zero (parse_rfc3339 s).

(** The table entry of a category. *)
Definition fields_of (k : string) : string :=
  match list_find (fun kv => kv.1 = k) Corelight.tagHeaders with
  | Some (_, kv) => kv.2
  | None => ""
  end.

(** A batch of three elements, one of them nil, over two records. *)
Definition batch0 : list (option Corelight.loc) :=
  [Some 0%nat; None; Some 1%nat].
Definition store0 : gmap Corelight.loc Corelight.Entry :=
  <[1%nat := arriving conn_payload]> {[0%nat := arriving foreign_payload]}.

(** The line the scenario of the specification is rewritten to. *)
Definition conn_line : bytes :=
  match transform demo (arriving conn_payload) with
  | Some e => Corelight.Data e
  | None => []
  end.

(** A processor whose [init] stopped at the fourth negotiation. *)
Definition stalled : Corelight.Corelight RTagger :=
  match Corelight.init Corelight.tagHeaders blank3 cfg0 None with
  | Done (c, _) => c
  | Panic _ => blank3
  end.

(** A store with a third record, which [batch0] does not point to. *)
Definition store1 : gmap Corelight.loc Corelight.Entry :=
  <[2%nat := arriving numeric_payload]> store0.

(** *** The collaborators of the relay configuration *)

#[export] Instance strings : GoStrings := {|
  ToLower := to_lower;
  ToLower_ascii := fun _ _ => eq_refl;
  TrimSpace := trim;
  TrimSpace_ascii := fun _ _ => eq_refl
|}.

(** A tag name may hold letters, digits, [-] and [_]. *)
Definition tag_char (a : ascii) : bool :=
  let n := nat_of_ascii a in
  ((48 <=? n) && (n <=? 57) || (65 <=? n) && (n <=? 90) ||
   (97 <=? n) && (n <=? 122) || (n =? 45) || (n =? 95))%nat.

(** An ingest configuration, reduced to its secret, is in order when the
    secret is set. *)
Definition check_secret (secret : string) : option string :=
  if String.eqb secret "" then Some "Ingest-Secret not specified" else None.

Definition illegal_tag (s : string) : bool :=
  negb (string_forallb tag_char s).

#[export] Instance ingest : @IngestLib types :=
  @Build_IngestLib types string check_secret illegal_tag (fun msg => msg).

Definition relay_tcp : Relay.listener :=
  {| Relay.Bind_String := "tcp://0.0.0.0:7777"; Relay.Tag_Name := "";
     Relay.Ignore_Timestamps := false; Relay.Assume_Local_Timezone := false;
     Relay.Reader_Type := "line" |}.

Definition relay_udp : Relay.listener :=
  {| Relay.Bind_String := "udp://0.0.0.0:514"; Relay.Tag_Name := "syslog";
     Relay.Ignore_Timestamps := true; Relay.Assume_Local_Timezone := false;
     Relay.Reader_Type := "rfc5424" |}.

Definition relay_heap : Relay.heap := <[1%nat := relay_udp]> {[0%nat := relay_tcp]}.

Definition relay_cfg : Relay.cfgType :=
  @Relay.Build_cfgType types ingest "secret"
    (<["syslog" := 1%nat]> {["plain" := 0%nat]}).

Definition relay_order : list (string * Relay.loc) :=
  [("syslog", 1%nat); ("plain", 0%nat)].

(** The listeners after [verifyConfig]. *)
Definition relay_verified : Relay.heap :=
  <[1%nat := relay_udp]> {[0%nat := Relay.set_Tag_Name "default" relay_tcp]}.

End Ref.

(** * Properties *)

(** ** Text *)

Section TextFacts.

Lemma append_cons (c : ascii) (a b : string) :
  String c a +:+ b = String c (a +:+ b).
Proof. done. Qed.

Lemma append_nil (a : string) : a +:+ "" = a.
Proof. induction a as [|c a IH]; [done|]. by rewrite append_cons, IH. Qed.

Lemma append_assoc (a b c : string) : (a +:+ b) +:+ c = a +:+ (b +:+ c).
Proof.
  induction a as [|x a IH]; [done|]. by rewrite !append_cons, IH.
Qed.

Lemma of_string_app (a b : string) :
  of_string (a +:+ b) = of_string a ++ of_string b.
Proof.
  induction a as [|c a IH]; [done|].
  rewrite append_cons. unfold of_string, String.list_byte_of_string in *.
  simpl. by rewrite IH.
Qed.

Lemma of_string_cons (c : ascii) (a : string) :
  of_string (String c a) = byte_of_ascii c :: of_string a.
Proof. done. Qed.

Lemma byte_eqb_true (x y : byte) : Byte.eqb x y = true <-> x = y.
Proof. split; [apply Byte.byte_dec_bl | apply Byte.byte_dec_lb]. Qed.

Lemma byte_eqb_false (x y : byte) : Byte.eqb x y = false <-> x <> y.
Proof.
  split; [apply Byte.eqb_false|].
  intros Hne. destruct (Byte.eqb x y) eqn:E; [|done].
  by apply byte_eqb_true in E.
Qed.

Lemma byte_of_ascii_inj (a b : ascii) :
  byte_of_ascii a = byte_of_ascii b -> a = b.
Proof.
  intros E. rewrite <- (ascii_of_byte_of_ascii a), <- (ascii_of_byte_of_ascii b).
  by rewrite E.
Qed.

(** A byte occurs in the bytes of a string iff the character occurs in
    the string. *)
Lemma elem_of_of_string (c : ascii) (s : string) :
  byte_of_ascii c ∈ of_string s <-> has_char c s = true.
Proof.
  unfold has_char. induction s as [|a s IH].
  - split; [intros Hin; inversion Hin | done].
  - rewrite of_string_cons, elem_of_cons. simpl.
    destruct (Ascii.eqb a c) eqn:E; simpl.
    + apply Ascii.eqb_eq in E as ->. tauto.
    + apply Ascii.eqb_neq in E. rewrite IH. split; [|tauto].
      intros [Hc|Hc]; [|done]. by apply byte_of_ascii_inj in Hc.
Qed.

Lemma not_elem_of_of_string (c : ascii) (s : string) :
  has_char c s = false -> byte_of_ascii c ∉ of_string s.
Proof. intros Hc Hin. apply elem_of_of_string in Hin. congruence. Qed.


(** [IndexByte] finds nothing exactly when the byte does not occur. *)
Lemma IndexByte_None (b : bytes) (c : byte) :
  IndexByte b c = None <-> c ∉ b.
Proof.
  induction b as [|x b IH]; simpl.
  - split; [intros _ Hin; inversion Hin | done].
  - destruct (Byte.eqb x c) eqn:E.
    + apply byte_eqb_true in E as ->. split; [done|].
      intros Hn. destruct Hn. left.
    + apply byte_eqb_false in E. rewrite not_elem_of_cons.
      destruct (IndexByte b c); simpl; split; try done.
      * intros [_ Hn]. by apply IH in Hn.
      * intros _. split; [done|]. by apply IH.
Qed.

Lemma columns_cons (x : byte) (b : bytes) :
  columns (x :: b) =
    if Byte.eqb x tab_byte then [] :: columns b
    else match columns b with
         | c :: r => (x :: c) :: r
         | [] => [[x]]
         end.
Proof. done. Qed.

(** The first column of [a ++ tab :: b] is [a] when [a] has no tab. *)
Lemma columns_app (a b : bytes) :
  tab_byte ∉ a -> columns (a ++ tab_byte :: b) = a :: columns b.
Proof.
  induction a as [|x a IH]; intros Hn.
  - change ([] ++ tab_byte :: b) with (tab_byte :: b).
    by rewrite columns_cons, (proj2 (byte_eqb_true _ _) eq_refl).
  - apply not_elem_of_cons in Hn as [Hx Ha].
    change ((x :: a) ++ tab_byte :: b) with (x :: (a ++ tab_byte :: b)).
    rewrite columns_cons, (proj2 (byte_eqb_false _ _)), (IH Ha); done.
Qed.

Lemma columns_single (a : bytes) : tab_byte ∉ a -> columns a = [a].
Proof.
  induction a as [|x a IH]; intros Hn; [done|].
  apply not_elem_of_cons in Hn as [Hx Ha].
  rewrite columns_cons, (proj2 (byte_eqb_false _ _)), (IH Ha); done.
Qed.

(** Cells joined by tabs split back into the cells. *)
Lemma columns_join (c0 : bytes) (cells : list bytes) :
  tab_byte ∉ c0 -> Forall (fun c => tab_byte ∉ c) cells ->
  columns (c0 ++ concat (map (cons tab_byte) cells)) = c0 :: cells.
Proof.
  intros H0 Hc. revert c0 H0.
  induction Hc as [|c cells Hc _ IH]; intros c0 H0; simpl.
  - rewrite app_nil_r. by apply columns_single.
  - rewrite columns_app by done. f_equal. by apply IH.
Qed.

End TextFacts.

(** ** Number formatting *)

Section FormatFacts.

Lemma string_forallb_app (p : ascii -> bool) (a b : string) :
  string_forallb p (a +:+ b) = string_forallb p a && string_forallb p b.
Proof.
  induction a as [|x a IH]; [done|].
  rewrite append_cons. simpl. by rewrite IH, andb_assoc.
Qed.

Lemma string_forallb_impl (p q : ascii -> bool) (s : string) :
  (forall a, p a = true -> q a = true) ->
  string_forallb p s = true -> string_forallb q s = true.
Proof.
  intros Hpq. induction s as [|x s IH]; simpl; [done|].
  intros [Hx Hs]%andb_true_iff. rewrite (Hpq _ Hx). by apply IH.
Qed.


Lemma nonempty_app_l (a b : string) :
  nonempty a = true -> nonempty (a +:+ b) = true.
Proof. by destruct a. Qed.

(** *** [%d] *)

Lemma uint_all_digits (u : Decimal.uint) :
  all_digits (NilEmpty.string_of_uint u) = true.
Proof. induction u; simpl; auto. Qed.

Lemma uint_nonempty (u : Decimal.uint) :
  u <> Decimal.Nil -> nonempty (NilEmpty.string_of_uint u) = true.
Proof. by destruct u. Qed.

Lemma nilzero_all_digits (u : Decimal.uint) :
  all_digits (NilZero.string_of_uint u) = true.
Proof.
  destruct u; [done|..]; unfold NilZero.string_of_uint;
    apply uint_all_digits.
Qed.





(** *** Fixed-point text *)

Lemma digit_is_digit (d : Z) : 0 <= d < 10 -> is_digit (digit d) = true.
Proof.
  intros Hd. unfold digit.
  assert (Hn : (Z.to_nat d < 10)%nat) by lia.
  generalize dependent (Z.to_nat d). intros n Hn.
  do 10 (destruct n as [|n]; [reflexivity|]); lia.
Qed.

Lemma fixed_digits_S (n : nat) (k : Z) :
  fixed_digits (S n) k =
    fixed_digits n (k / 10) +:+ String (digit (k mod 10)) EmptyString.
Proof. done. Qed.

Lemma fixed_digits_all (n : nat) (k : Z) :
  all_digits (fixed_digits n k) = true.
Proof.
  revert k. induction n as [|n IH]; intros k; [done|].
  rewrite fixed_digits_S. unfold all_digits in *.
  rewrite string_forallb_app, IH.
  change (is_digit (digit (k mod 10)) && true = true).
  rewrite digit_is_digit; [done|]. apply Z.mod_pos_bound. lia.
Qed.




(** The characters of a fixed-point text: a sign, digits, a point. *)
Section Chars.
Variable ok : ascii -> bool.
Hypothesis ok_digit : forall a, is_digit a = true -> ok a = true.
Hypothesis ok_minus : ok "-" = true.
Hypothesis ok_point : ok "." = true.

Lemma fmt_d_chars (n : Z) : string_forallb ok (fmt_d n) = true.
Proof.
  unfold fmt_d. destruct n as [|q|q]; simpl.
  - by rewrite ok_digit.
  - apply (string_forallb_impl is_digit); [done|].
    apply nilzero_all_digits.
  - rewrite ok_minus. apply (string_forallb_impl is_digit); [done|].
    apply nilzero_all_digits.
Qed.

Lemma fixed_of_chars (s : bool) (n : Z) (p : nat) :
  string_forallb ok (fixed_of s n p) = true.
Proof.
  unfold fixed_of. rewrite !string_forallb_app, fmt_d_chars.
  assert (Hs : string_forallb ok (if s then "-" else "") = true).
  { destruct s; simpl; by rewrite ?ok_minus. }
  rewrite Hs. destruct p as [|p]; [done|].
  rewrite string_forallb_app.
  change (string_forallb ok ".") with (ok "." && true).
  rewrite ok_point.
  apply (string_forallb_impl is_digit); [done|]. apply fixed_digits_all.
Qed.

Lemma fmt_f_chars (p : nat) (f : float64) :
  is_finite f = true -> string_forallb ok (fmt_f p f) = true.
Proof. destruct f; try done; intros _; apply fixed_of_chars. Qed.
End Chars.




(** Neither a tab nor an opening brace is printed by the numeric verbs. *)
Lemma digit_not (c : ascii) (a : ascii) :
  is_digit c = false -> is_digit a = true -> negb (Ascii.eqb a c) = true.
Proof. intros Hc Ha. apply negb_true_iff, Ascii.eqb_neq. congruence. Qed.

Lemma fmt_d_has_char (c : ascii) (n : Z) :
  is_digit c = false -> c <> "-"%char -> has_char c (fmt_d n) = false.
Proof.
  intros Hc Hm. unfold has_char. apply negb_false_iff.
  apply fmt_d_chars; [intros a; by apply digit_not|].
  apply negb_true_iff, Ascii.eqb_neq. congruence.
Qed.

Lemma fmt_f_has_char (c : ascii) (p : nat) (f : float64) :
  structural c -> has_char c (fmt_f p f) = false.
Proof.
  intros Hc. destruct (is_finite f) eqn:Hf.
  - unfold has_char. apply negb_false_iff.
    apply fmt_f_chars; [|by destruct Hc as [-> | [-> | ->]]..|done].
    intros a. apply digit_not. by destruct Hc as [-> | [-> | ->]].
  - destruct f as [s|s| |s m e]; try done; destruct Hc as [-> | [-> | ->]];
      try destruct s; reflexivity.
Qed.

End FormatFacts.

(** ** Binary64 arithmetic *)

Section FloatFacts.












Lemma fexp_ge (k : Z) : Z.max (k - 53) (-1074) <= fexp prec emax k.
Proof. unfold fexp, SpecFloat.emin, prec, emax. lia. Qed.


















(** For a whole number inside the [int64] range, [int(f)] is the value
    itself. *)
Lemma integral_trunc (s : bool) (m : positive) (e : Z) :
  integral (S754_finite s m e) = true -> e < 0 ->
  Zpos m = Z.abs (trunc (S754_finite s m e)) * 2 ^ (- e).
Proof.
  unfold integral, trunc. intros Hi He.
  assert (Hle : (0 <=? e) = false) by (apply Z.leb_gt; lia).
  rewrite Hle in *. cbn [orb] in Hi. apply Z.eqb_eq in Hi.
  assert (Hp : 0 < 2 ^ (- e)) by (apply Z.pow_pos_nonneg; lia).
  pose proof (Z.div_mod (Zpos m) (2 ^ (- e)) ltac:(lia)) as Hdm.
  assert (0 <= Z.pos m / 2 ^ (- e)) by (apply Z.div_pos; lia).
  destruct s; lia.
Qed.

End FloatFacts.

(** ** Line emission *)

Section EmitFacts.
Context `{GoLib}.
Import Corelight.

Lemma emitField_eq (mp : gmap string Value) (bb : bytes) (h : string) :
  emitField mp bb h = bb ++ tab_byte :: of_string (field_text mp h).
Proof.
  unfold emitField, field_text, Fprintf.
  destruct (mp !! h) as [v|]; [|done].
  destruct v; try done. by destruct (F64.eqb _ _).
Qed.

Lemma emit_fields_eq (mp : gmap string Value) (bb : bytes)
    (hs : list string) :
  foldl (emitField mp) bb hs =
    bb ++ concat (map (fun h => tab_byte :: of_string (field_text mp h)) hs).
Proof.
  revert bb. induction hs as [|h hs IH]; intros bb; simpl.
  - by rewrite app_nil_r.
  - rewrite IH, emitField_eq, <- app_assoc. done.
Qed.

(** The line [emitLine] builds: the timestamp text, then a tab and the
    field text for every header after the first. *)
Lemma emitLine_eq (ts : Time) (h0 : string) (rest : list string)
    (mp : gmap string Value) :
  emitLine ts (h0 :: rest) mp =
    Done (of_string (stamp_text ts) ++
          concat (map (fun h => tab_byte :: of_string (field_text mp h))
                    rest), true).
Proof. unfold emitLine. by rewrite emit_fields_eq. Qed.


Lemma stamp_text_has_char (c : ascii) (ts : Time) :
  structural c -> has_char c (stamp_text ts) = false.
Proof. apply fmt_f_has_char. Qed.

(** A field text holds a tab or a brace only when it renders a value
    that is not a number. *)
Lemma field_text_has_char (c : ascii) (mp : gmap string Value) (h : string) :
  structural c ->
  has_char c (field_text mp h) = true ->
  exists v, mp !! h = Some v /\ (forall f, v <> VNum f) /\
            has_char c (fmt_v v) = true.
Proof.
  intros Hc. unfold field_text. destruct (mp !! h) as [v|] eqn:E.
  - destruct v as [|b|f|s|l|kvs];
      try (intros Hh; eexists; split; [done|]; split; [done|exact Hh]).
    destruct (F64.eqb _ _).
    + rewrite fmt_d_has_char; [done| |]; by destruct Hc as [-> | [-> | ->]].
    + by rewrite fmt_f_has_char.
  - by destruct Hc as [-> | [-> | ->]].
Qed.

End EmitFacts.

(** ** Initialisation *)

Section InitFacts.
Context `{GoLib} {T : Type} `{!Tagger T}.
Import Corelight.

Lemma Split_nonempty (s : string) (sep : ascii) : Split s sep <> [].
Proof.
  induction s as [|a s IH]; simpl; [done|].
  destruct (Ascii.eqb a sep); [done|]. by destruct (Split s sep).
Qed.

Lemma effective_prefix_nonempty (p : string) : effective_prefix p <> "".
Proof.
  unfold effective_prefix. destruct (String.eqb p "") eqn:E; [done|].
  by apply String.eqb_neq in E.
Qed.

(** The loop never changes the configuration. *)
Lemma init_loop_config (kvs : list (string * string)) (c c' : Corelight T)
    (err : option error) :
  init_loop kvs c = Done (c', err) -> config c' = config c.
Proof.
  revert c. induction kvs as [|[k v] kvs IH]; intros c; simpl.
  - by intros [= <- _].
  - destruct (tg c) as [t|]; [|done].
    destruct (NegotiateTag _ t) as [[tv|e] t'].
    + intros Hl. by apply IH in Hl.
    + by intros [= <- _].
Qed.

(** Field lists registered by the loop have at least one column. *)
Lemma init_loop_wf (kvs : list (string * string)) (c c' : Corelight T)
    (err : option error) :
  init_loop kvs c = Done (c', err) -> wf c -> wf c'.
Proof.
  revert c. induction kvs as [|[k v] kvs IH]; intros c; simpl.
  - by intros [= <- _].
  - destruct (tg c) as [t|]; [|done]. intros Hl Hwf.
    assert (Hwf' : map_Forall (fun _ hs => hs <> [])
              (<[Prefix (config c) +:+ k := Split v ","%char]> (tagFields c))).
    { apply map_Forall_insert_2; [apply Split_nonempty|done]. }
    destruct (NegotiateTag _ t) as [[tv|e] t'].
    + by apply IH in Hl.
    + by injection Hl as <- _.
Qed.

(** After a run without error the two tables have the same keys, and
    the field-list table holds the schema of the visited entries. *)
Lemma init_loop_tables (kvs : list (string * string)) (c c' : Corelight T) :
  init_loop kvs c = Done (c', None) ->
  tagFields c' =
    list_to_map (schema_of (Prefix (config c)) (reverse kvs)) ∪ tagFields c /\
  (dom (tags c) = dom (tagFields c) -> dom (tags c') = dom (tagFields c')).
Proof.
  revert c. induction kvs as [|[k v] kvs IH]; intros c; simpl.
  - intros [= <-]. split; [|done]. by rewrite (left_id_L ∅ (∪)).
  - destruct (tg c) as [t|]; [|done].
    destruct (NegotiateTag _ t) as [[tv|e] t']; [|done].
    intros Hl. apply IH in Hl as [E D]. simpl in E, D. split.
    + rewrite E. rewrite reverse_cons. unfold schema_of.
      rewrite map_app, list_to_map_app. simpl.
      rewrite <- (assoc_L (∪)). f_equal.
      by rewrite insert_empty, <- insert_union_singleton_l.
    + intros D0. apply D. by rewrite !dom_insert_L, D0.
Qed.

(** How the loop ends is decided by the first negotiation that
    fails. *)
Lemma init_loop_outcome (kvs : list (string * string)) (c : Corelight T)
    (t : T) :
  tg c = Some t ->
  match first_failure (map (fun kv => Prefix (config c) +:+ kv.1) kvs) t with
  | Some err => exists c', init_loop kvs c = Done (c', Some err)
  | None => exists c', init_loop kvs c = Done (c', None)
  end.
Proof.
  revert c t. induction kvs as [|[k v] kvs IH]; intros c t Ht; simpl.
  - by eexists.
  - rewrite Ht. destruct (NegotiateTag _ t) as [[tv|e] t'].
    + apply (IH (set_tags _ (set_tg (Some t') (set_tagFields _ c))) t').
      done.
    + by eexists.
Qed.

Lemma tagHeaders_keys_NoDup : NoDup tagHeaders.*1.
Proof. apply (bool_decide_unpack _). by vm_compute. Qed.

Lemma schema_of_keys_NoDup (p : string) (kvs : list (string * string)) :
  NoDup kvs.*1 -> NoDup (schema_of p kvs).*1.
Proof.
  intros Hn. unfold schema_of. rewrite <- list_fmap_compose.
  replace (fmap (M:=list) (fst ∘ (fun kv : string * string =>
             (p +:+ kv.1, Split kv.2 ","%char))) kvs)
    with (String.app p <$> kvs.*1).
  - by apply (NoDup_fmap_2 _).
  - rewrite <- list_fmap_compose. done.
Qed.

Lemma init_unfold (order : list (string * string)) (c : Corelight T)
    (cfg : CorelightConfig) (tagger : option T) :
  exists c0,
    init order c cfg tagger = init_loop order c0 /\
    Prefix (config c0) = effective_prefix (Prefix (config c)) /\
    tagFields c0 = ∅ /\ tags c0 = ∅ /\ tg c0 = tg c.
Proof.
  unfold init, effective_prefix.
  destruct (String.eqb (Prefix (config c)) "") eqn:E; eexists;
    (split; [reflexivity|]); simpl; repeat split.
Qed.

(** What [init] leaves in the receiver when it reports no error. *)
Lemma init_success (order : list (string * string)) (c c' : Corelight T)
    (cfg : CorelightConfig) (tagger : option T) :
  order ≡ₚ tagHeaders ->
  init order c cfg tagger = Done (c', None) ->
  Prefix (config c') = effective_prefix (Prefix (config c)) /\
  tagFields c' = list_to_map (schema_of (Prefix (config c')) tagHeaders) /\
  dom (tags c') = dom (tagFields c') /\
  wf c'.
Proof.
  intros Hp Hi. destruct (init_unfold order c cfg tagger)
    as (c0 & E & Hpre & Hf & Ht & _).
  rewrite E in Hi.
  pose proof (init_loop_config _ _ _ _ Hi) as Hc.
  pose proof (init_loop_tables _ _ _ Hi) as [Etab Hdom].
  assert (Hpc : Prefix (config c') = effective_prefix (Prefix (config c)))
    by (by rewrite Hc).
  split; [done|]. split; [|split].
  - rewrite Etab, Hf, (right_id_L ∅ (∪)), Hc.
    apply list_to_map_proper.
    + apply schema_of_keys_NoDup. rewrite reverse_Permutation, Hp.
      apply tagHeaders_keys_NoDup.
    + unfold schema_of. by rewrite reverse_Permutation, Hp.
  - apply Hdom. by rewrite Hf, Ht.
  - apply (init_loop_wf _ _ _ _ Hi). unfold wf. rewrite Hf. apply map_Forall_empty.
Qed.

Lemma NewCorelight_success (order : list (string * string))
    (cfg : CorelightConfig) (tagger : option T) (c : Corelight T) :
  NewCorelight order cfg tagger = Done (Some c, None) ->
  init order {| tg := tagger; tagFields := ∅; tags := ∅; config := cfg |}
    cfg tagger = Done (c, None).
Proof.
  unfold NewCorelight. destruct (init _ _ _ _) as [[c' [e|]]|w]; simpl; try done.
  by intros [= <-].
Qed.

(** The processor [NewCorelight] returns. *)
Lemma constructed_spec (order : list (string * string))
    (cfg : CorelightConfig) (tagger : option T) (c : Corelight T) :
  constructed order cfg tagger c ->
  Prefix (config c) = effective_prefix (Prefix cfg) /\
  tagFields c = list_to_map (schema_of (Prefix (config c)) tagHeaders) /\
  dom (tags c) = dom (tagFields c) /\
  wf c.
Proof.
  intros [Hp Hn]. apply NewCorelight_success in Hn.
  by apply (init_success _ _ _ _ _ Hp) in Hn.
Qed.

Lemma schema_lookup (p : string) (k v : string) :
  (k, v) ∈ tagHeaders ->
  (list_to_map (schema_of p tagHeaders) : gmap string (list string))
    !! (p +:+ k) = Some (Split v ","%char).
Proof.
  intros Hin. apply elem_of_list_to_map_1.
  - apply schema_of_keys_NoDup, tagHeaders_keys_NoDup.
  - unfold schema_of. apply list_elem_of_fmap. by exists (k, v).
Qed.

Lemma schema_lookup_inv (p : string) (t : string) (hs : list string) :
  (list_to_map (schema_of p tagHeaders) : gmap string (list string))
    !! t = Some hs ->
  exists k v, (k, v) ∈ tagHeaders /\ t = p +:+ k /\ hs = Split v ","%char.
Proof.
  intros Hl. apply elem_of_list_to_map_2 in Hl.
  unfold schema_of in Hl. apply list_elem_of_fmap in Hl as ([k v] & E & Hin).
  injection E as -> ->. by exists k, v.
Qed.

End InitFacts.

(** ** Per-record conversion *)

Section ProcessFacts.
Context `{GoLib} {T : Type} `{!Tagger T}.
Import Corelight.

Lemma getTagTs_true (c : Corelight T) (mp : gmap string Value)
    (tag : string) (ts : Time) :
  getTagTs c mp = (tag, ts, true) <->
  exists tagval tss,
    mp !! "_path" = Some (VStr tagval) /\ mp !! "ts" = Some (VStr tss) /\
    time_Parse tss = Some ts /\ tag = Prefix (config c) +:+ tagval.
Proof.
  unfold getTagTs. split.
  - destruct (mp !! "_path") as [[| | |tagval| |]|]; try done;
      destruct (mp !! "ts") as [[| | |tss| |]|]; try done.
    destruct (time_Parse tss) as [ts'|] eqn:Ep; [|done].
    intros [= <- <-]. by exists tagval, tss.
  - intros (tagval & tss & -> & -> & -> & ->). done.
Qed.

Lemma getTagTs_false (c : Corelight T) (mp : gmap string Value)
    (tag : string) (ts : Time) :
  getTagTs c mp = (tag, ts, false) -> tag = "" /\ ts = time_zero.
Proof.
  unfold getTagTs.
  destruct (mp !! "_path") as [[| | |tagval| |]|];
    destruct (mp !! "ts") as [[| | |tss| |]|]; try (by intros [= <- <-]).
  destruct (time_Parse tss); [done|]. by intros [= <- <-].
Qed.

Lemma emitLine_Done (ts : Time) (headers : list string)
    (mp : gmap string Value) :
  headers <> [] -> exists line, emitLine ts headers mp = Done (line, true).
Proof.
  destruct headers as [|h0 rest]; [done|]. intros _.
  rewrite emitLine_eq. by eexists.
Qed.

Lemma emitLine_never_false (ts : Time) (headers : list string)
    (mp : gmap string Value) (line : bytes) :
  emitLine ts headers mp <> Done (line, false).
Proof.
  destruct headers as [|h0 rest]; [done|]. by rewrite emitLine_eq.
Qed.

Lemma process_cases (c : Corelight T) (mp : gmap string Value) (og : bytes) :
  wf c ->
  exists tag ts line,
    process c mp og = Done (tag, ts, line) /\
    ((tag = defaultTag /\ line = og) \/ converted c mp tag ts line).
Proof.
  intros Hwf. unfold process.
  destruct (Nat.eqb (size mp) 0) eqn:Es.
  { do 3 eexists. split; [done|]. by left. }
  apply Nat.eqb_neq in Es.
  destruct (getTagTs c mp) as [[tag ts] ok] eqn:Eg.
  destruct ok; simpl; [|do 3 eexists; split; [done|]; by left].
  destruct (tagFields c !! tag) as [headers|] eqn:Eh;
    [|do 3 eexists; split; [done|]; by left].
  destruct (emitLine_Done ts headers mp) as [line El].
  { by apply (Hwf _ _ Eh). }
  rewrite El. simpl. do 3 eexists. split; [done|]. right. by exists headers.
Qed.

Lemma processLine_cases (c : Corelight T) (s : bytes) :
  wf c ->
  exists tag ts line,
    processLine c s = Done (tag, ts, line) /\
    (tag = defaultTag \/
     exists mp, decodes s mp /\ converted c mp tag ts line).
Proof.
  intros Hwf. unfold processLine.
  destruct (IndexByte s lbrace_byte) as [idx|] eqn:Ei;
    [|do 3 eexists; split; [done|]; by left].
  destruct (json_Unmarshal (drop idx s)) as [mp|] eqn:Ej;
    [|do 3 eexists; split; [done|]; by left].
  destruct (process_cases c mp (drop idx s) Hwf)
    as (tag & ts & line & -> & [[-> _]|Hc]).
  - do 3 eexists. split; [done|]. by left.
  - do 3 eexists. split; [done|]. right. exists mp. split; [|done].
    by exists idx.
Qed.

(** A successful conversion is what [processLine] returns. *)
Lemma processLine_converted (c : Corelight T) (s : bytes)
    (mp : gmap string Value) (tag : string) (ts : Time) (line : bytes) :
  decodes s mp -> converted c mp tag ts line ->
  processLine c s = Done (tag, ts, line).
Proof.
  intros (idx & Ei & Ej) (headers & Hs & Hg & Hh & He).
  unfold processLine, process. rewrite Ei, Ej.
  apply Nat.eqb_neq in Hs. rewrite Hs, Hg. simpl. rewrite Hh, He. done.
Qed.

(** Under any of the failure conditions [processLine] returns the
    default tag. *)
Lemma processLine_failure (c : Corelight T) (data : bytes) :
  failure c data -> data <> [] ->
  exists ts line, processLine c data = Done (defaultTag, ts, line).
Proof.
  intros Hf Hne. unfold processLine.
  assert (Hproc : forall mp idx,
    IndexByte data lbrace_byte = Some idx ->
    json_Unmarshal (drop idx data) = Some mp ->
    (size mp = 0%nat \/
     (exists tag ts, getTagTs c mp = (tag, ts, false)) \/
     (exists tag ts, getTagTs c mp = (tag, ts, true) /\
                     tagFields c !! tag = None)) ->
    exists ts line,
      match IndexByte data lbrace_byte with
      | Some idx =>
          match json_Unmarshal (drop idx data) with
          | Some mp => process c mp (drop idx data)
          | None => Done (defaultTag, time_zero, drop idx data)
          end
      | None => Done (defaultTag, time_zero, data)
      end = Done (defaultTag, ts, line)).
  { intros mp idx -> -> Hcase. unfold process.
    destruct Hcase as [Hs|[(tag & ts & Hg)|(tag & ts & Hg & Hh)]].
    - rewrite Hs. simpl. by do 2 eexists.
    - destruct (Nat.eqb (size mp) 0); [by do 2 eexists|].
      rewrite Hg. simpl. by do 2 eexists.
    - destruct (Nat.eqb (size mp) 0); [by do 2 eexists|].
      rewrite Hg. simpl. rewrite Hh. by do 2 eexists. }
  assert (Hg : forall mp, exists tag ts ok, getTagTs c mp = (tag, ts, ok)).
  { intros mp. destruct (getTagTs c mp) as [[tag ts] ok]. by do 3 eexists. }
  destruct Hf as [E|E|idx Ei Ej|mp (idx & Ei & Ej) Hs
                  |mp (idx & Ei & Ej) Hp|mp (idx & Ei & Ej) Ht
                  |mp tss (idx & Ei & Ej) Ht Hp
                  |mp tagval (idx & Ei & Ej) Hp Hc
                  |mp tag ts headers line (idx & Ei & Ej) Hg' Hh He].
  - done.
  - rewrite E. by do 2 eexists.
  - rewrite Ei, Ej. by do 2 eexists.
  - apply (Hproc mp idx Ei Ej). by left.
  - apply (Hproc mp idx Ei Ej). right. left.
    destruct (Hg mp) as (tag & ts & [] & Eg); [|by do 2 eexists].
    apply getTagTs_true in Eg as (tv & ? & E1 & _). by destruct (Hp tv).
  - apply (Hproc mp idx Ei Ej). right. left.
    destruct (Hg mp) as (tag & ts & [] & Eg); [|by do 2 eexists].
    apply getTagTs_true in Eg as (? & tss & _ & E1 & _). by destruct (Ht tss).
  - apply (Hproc mp idx Ei Ej). right. left.
    destruct (Hg mp) as (tag & ts & [] & Eg); [|by do 2 eexists].
    apply getTagTs_true in Eg as (? & tss' & _ & E1 & E2 & _). congruence.
  - apply (Hproc mp idx Ei Ej). right.
    destruct (Hg mp) as (tag & ts & [] & Eg); [right|left; by do 2 eexists].
    exists tag, ts. split; [done|].
    apply getTagTs_true in Eg as (tv & ? & E1 & _ & _ & ->). congruence.
  - by destruct (emitLine_never_false ts headers mp line).
Qed.

End ProcessFacts.

(** ** Batches *)

Section BatchFacts.
Context `{GoLib} {T : Type} `{!Tagger T}.
Import Corelight.

Lemma rewrite_eq (e : Entry) (tv : EntryTag) (t : Timestamp) (line : bytes) :
  set_Data line (set_TS t (set_Tag tv e))
    = {| TS := t; Tag := tv; Data := line |}.
Proof. done. Qed.

Lemma length_zero_nil {A : Type} (l : list A) :
  Nat.eqb (length l) 0 = true <-> l = [].
Proof. destruct l; simpl; split; done. Qed.

(** A record under a failure condition is left as it is. *)
Lemma Process_ent_failure (c : Corelight T) (h : store) (l : loc)
    (e : Entry) :
  h !! l = Some e -> failure c (Data e) ->
  Process_ent c h (Some l) = Done h.
Proof.
  intros Hl Hf. unfold Process_ent. rewrite Hl.
  destruct (Nat.eqb (length (Data e)) 0) eqn:En; [done|].
  destruct (processLine_failure c (Data e) Hf) as (ts & line & ->).
  { intros E. by rewrite E in En. }
  done.
Qed.

(** One element of the batch: the store is unchanged, or the record the
    element points to is rewritten as a whole. *)
Lemma Process_ent_cases (c : Corelight T) (h : store) (ent : option loc) :
  wf c ->
  exists h',
    Process_ent c h ent = Done h' /\
    (h' = h \/
     exists l e e',
       ent = Some l /\ h !! l = Some e /\ Data e <> [] /\
       rewritten c e e' /\ h' = <[l := e']> h).
Proof.
  intros Hwf. unfold Process_ent.
  destruct ent as [l|]; [|by eexists; split; [|left]].
  destruct (h !! l) as [e|] eqn:El; [|by eexists; split; [|left]].
  destruct (Nat.eqb (length (Data e)) 0) eqn:En;
    [by eexists; split; [|left]|].
  destruct (processLine_cases c (Data e) Hwf) as (tag & ts & line & Ep & _).
  rewrite Ep. simpl.
  destruct (String.eqb tag defaultTag) eqn:Et; simpl;
    [by eexists; split; [|left]|].
  destruct (tags c !! tag) as [tv|] eqn:Etv; [|by eexists; split; [|left]].
  eexists. split; [done|]. right.
  exists l, e, {| TS := FromStandard ts; Tag := tv; Data := line |}.
  split; [done|]. split; [done|]. split; [|split; [|done]].
  - intros E. by rewrite E in En.
  - exists tag, ts, line, tv. repeat split; try done.
    by apply String.eqb_neq in Et.
Qed.

Lemma Process_loop_cons (c : Corelight T) (ent : option loc)
    (rest : list (option loc)) (h : store) :
  Process_loop c (ent :: rest) h
    = Process_ent c h ent ≫= Process_loop c rest.
Proof. done. Qed.

(** The elements of a batch are processed from left to right. *)
Lemma Process_loop_app (c : Corelight T) (a b : list (option loc))
    (h : store) :
  Process_loop c (a ++ b) h = Process_loop c a h ≫= Process_loop c b.
Proof.
  revert h. induction a as [|ent a IH]; intros h; [done|].
  simpl. destruct (Process_ent c h ent) as [h1|w]; simpl; [apply IH|done].
Qed.

Lemma Process_loop_total (c : Corelight T) (ents : list (option loc))
    (h : store) :
  wf c -> exists h', Process_loop c ents h = Done h'.
Proof.
  intros Hwf. revert h. induction ents as [|ent ents IH]; intros h.
  - by eexists.
  - destruct (Process_ent_cases c h ent Hwf) as (h1 & E1 & _).
    rewrite Process_loop_cons, E1. apply IH.
Qed.

(** Every record of the final store comes from the record at the same
    place of the initial store by complete rewrites. *)
Lemma Process_loop_steps (c : Corelight T) (ents : list (option loc))
    (h h' : store) :
  wf c -> Process_loop c ents h = Done h' ->
  dom h' = dom h /\
  forall l e, h !! l = Some e ->
    exists e', h' !! l = Some e' /\ rtc (rewritten c) e e'.
Proof.
  intros Hwf.
  revert h. induction ents as [|ent ents IH]; intros h.
  - intros [= <-]. split; [done|]. intros l e Hl. by exists e.
  - rewrite Process_loop_cons.
    destruct (Process_ent_cases c h ent Hwf) as (h1 & E1 & Hc).
    rewrite E1. simpl. intros Hrest. apply IH in Hrest as [Hd Hs].
    destruct Hc as [->|(l0 & e0 & e0' & -> & Hl0 & _ & Hr & ->)]; [done|].
    split.
    + rewrite Hd. by apply dom_insert_lookup_L.
    + intros l e Hl. destruct (decide (l = l0)) as [->|Hne].
      * assert (e = e0) as -> by congruence.
        destruct (Hs l0 e0') as (e' & He' & Hrtc); [by rewrite lookup_insert_eq|].
        exists e'. split; [done|]. by eapply rtc_l.
      * apply Hs. by rewrite lookup_insert_ne.
Qed.

(** A record under a failure condition is the same after the batch. *)
Lemma Process_loop_keeps (c : Corelight T) (ents : list (option loc))
    (h h' : store) (l : loc) (e : Entry) :
  h !! l = Some e -> failure c (Data e) ->
  Process_loop c ents h = Done h' -> h' !! l = Some e.
Proof.
  intros Hl Hf.
  revert h Hl. induction ents as [|ent ents IH]; intros h Hl.
  - by intros [= <-].
  - rewrite Process_loop_cons.
    destruct (Process_ent c h ent) as [h1|w] eqn:E1; [|done]. simpl.
    apply IH. destruct ent as [l0|]; [|by injection E1 as <-].
    destruct (decide (l0 = l)) as [->|Hne].
    + rewrite (Process_ent_failure c h l e Hl Hf) in E1. by injection E1 as <-.
    + unfold Process_ent in E1.
      destruct (h !! l0) as [e0|]; [|by injection E1 as <-].
      destruct (Nat.eqb _ _); [by injection E1 as <-|].
      destruct (processLine c (Data e0)) as [[[tag ts] line]|w]; [|done].
      simpl in E1. destruct (negb _); [|by injection E1 as <-].
      destruct (tags c !! tag); injection E1 as <-; [|done].
      by rewrite lookup_insert_ne.
Qed.

(** Removing a failing record from the batch does not change what the
    batch does to the store. *)
Lemma Process_loop_skip (c : Corelight T) (pre post : list (option loc))
    (h : store) (l : loc) (e : Entry) :
  h !! l = Some e -> failure c (Data e) ->
  Process_loop c (pre ++ Some l :: post) h = Process_loop c (pre ++ post) h.
Proof.
  intros Hl Hf. rewrite !Process_loop_app.
  destruct (Process_loop c pre h) as [h1|w] eqn:E1; [|done].
  change (Process_loop c (Some l :: post) h1 = Process_loop c post h1).
  rewrite Process_loop_cons, (Process_ent_failure c h1 l e); [done| |done].
  by apply (Process_loop_keeps c pre h).
Qed.

End BatchFacts.

(** ** Rewritten records *)

Section RewriteFacts.
Context `{GoLib} {T : Type} `{!Tagger T}.
Import Corelight.

Lemma append_nonempty (p k : string) : p <> "" -> p +:+ k <> "".
Proof. by destruct p. Qed.

Lemma IndexByte_Some_nonempty (b : bytes) (c : byte) (i : nat) :
  IndexByte b c = Some i -> b <> [].
Proof. by destruct b. Qed.

(** The joined line lacks a byte that the timestamp text, the separator
    and the field texts all lack. *)
Lemma line_lacks (c : ascii) (stamp : string) (cells : list string) :
  c <> TAB -> has_char c stamp = false ->
  Forall (fun x => has_char c x = false) cells ->
  byte_of_ascii c ∉
    of_string stamp ++ concat (map (fun x => tab_byte :: of_string x) cells).
Proof.
  intros Hc Hs Hcells. rewrite elem_of_app, elem_of_of_string, Hs.
  intros [?|Hin]; [done|].
  induction Hcells as [|x cells Hx _ IH]; simpl in Hin.
  - by apply elem_of_nil in Hin.
  - rewrite elem_of_cons, elem_of_app, elem_of_of_string, Hx in Hin.
    destruct Hin as [E|[?|Hin]]; [|done|by apply IH].
    by apply byte_of_ascii_inj in E.
Qed.

(** A converted record whose tag is registered is rewritten. *)
Lemma Process_ent_converted (c : Corelight T) (h : store) (l : loc)
    (e : Entry) (mp : gmap string Value) (tag : string) (ts : Time)
    (line : bytes) (tv : EntryTag) :
  h !! l = Some e -> decodes (Data e) mp -> converted c mp tag ts line ->
  tag <> defaultTag -> tags c !! tag = Some tv ->
  Process_ent c h (Some l)
    = Done (<[l := {| TS := FromStandard ts; Tag := tv; Data := line |}]> h).
Proof.
  intros Hl Hd Hc Hne Htv. unfold Process_ent. rewrite Hl.
  assert (Hdata : Data e <> []).
  { destruct Hd as (idx & Ei & _). by apply IndexByte_Some_nonempty in Ei. }
  destruct (Nat.eqb (length (Data e)) 0) eqn:En.
  { by apply length_zero_nil in En. }
  rewrite (processLine_converted c (Data e) mp tag ts line Hd Hc). simpl.
  apply String.eqb_neq in Hne. rewrite Hne. simpl. by rewrite Htv.
Qed.


End RewriteFacts.

(** ** Reconfiguration *)

Section ConfigFacts.
Context `{GoLib} {T : Type} `{!Tagger T}.
Import Corelight.

(** [Config] with a [CorelightConfig] runs [init] on the receiver. *)
Lemma Config_runs_init (order : list (string * string)) (c : Corelight T)
    (cfg : CorelightConfig) (tagger : option T) :
  Config order c (DynCorelightConfig cfg) tagger = init order c cfg tagger.
Proof. done. Qed.

(** [init] works from the prefix and the tagger the receiver holds; the
    configuration and the tagger it is handed make no difference. *)
Lemma init_ignores_arguments (order : list (string * string))
    (c : Corelight T) (cfg cfg' : CorelightConfig) (tagger tagger' : option T) :
  init order c cfg tagger = init order c cfg' tagger'.
Proof. done. Qed.

Lemma Config_nil (order : list (string * string)) (c : Corelight T)
    (tagger : option T) :
  Config order c DynNil tagger = Done (c, Some ErrNilConfig).
Proof. done. Qed.

(** A receiver without tagger panics at the first negotiation. *)
Lemma init_nil_tagger (order : list (string * string)) (c : Corelight T)
    (cfg : CorelightConfig) (tagger : option T) :
  tg c = None -> order <> [] -> exists w, init order c cfg tagger = Panic w.
Proof.
  intros Htg Ho. destruct (init_unfold order c cfg tagger)
    as (c0 & -> & _ & _ & _ & Htg0).
  destruct order as [|[k v] order]; [done|]. simpl.
  rewrite Htg0, Htg. by eexists.
Qed.

(** When every negotiation succeeds [NewCorelight] returns a
    processor. *)
Lemma NewCorelight_total (order : list (string * string))
    (cfg : CorelightConfig) (t : T) :
  first_failure
    (map (fun kv => effective_prefix (Prefix cfg) +:+ kv.1) order) t = None ->
  exists c, NewCorelight order cfg (Some t) = Done (Some c, None).
Proof.
  intros Hf. unfold NewCorelight.
  destruct (init_unfold order
              {| tg := Some t; tagFields := ∅; tags := ∅; config := cfg |}
              cfg (Some t)) as (c0 & -> & Hp & _ & _ & Htg).
  pose proof (init_loop_outcome order c0 t Htg) as Ho.
  rewrite Hp in Ho. simpl in Ho. rewrite Hf in Ho.
  destruct Ho as [c' ->]. by exists c'.
Qed.

End ConfigFacts.

(** * The claims of the specification *)

Section Claims.
Context `{GoLib} {T : Type} `{!Tagger T}.
Import Corelight.

(** C1.  Whenever one of the failure conditions holds for a record of the
    batch (empty payload, no opening brace, JSON decode failure, empty
    decoded map, missing or non-string [_path] or [ts], a [ts] that does
    not parse, a tag name without field list, emission failure), [Process]
    returns the batch without error, the record is the same after the call
    as before it, the step for that record leaves the whole store as it
    is, and the other elements of the batch are processed as if the
    failing one were not there. *)
Theorem C1_failure_passes_through (c : Corelight T)
    (ents : list (option loc)) (h : store) (l : loc) (e : Entry) :
  wf c -> h !! l = Some e -> failure c (Data e) ->
  exists h',
    Process c ents h = Done (ents, None, h') /\
    h' !! l = Some e /\
    (forall h1, h1 !! l = Some e -> Process_ent c h1 (Some l) = Done h1) /\
    (forall pre post, ents = pre ++ Some l :: post ->
       Process_loop c ents h = Process_loop c (pre ++ post) h).
Proof.
  intros Hwf Hl Hf.
  destruct (Process_loop_total c ents h Hwf) as [h' Eh'].
  assert (Hkeep : h' !! l = Some e) by (by apply (Process_loop_keeps c ents h)).
  assert (EP : Process c ents h = Done (ents, None, h')).
  { unfold Process. destruct ents as [|ent ents]; [|by rewrite Eh'].
    by injection Eh' as <-. }
  exists h'. split; [done|]. split; [done|]. split.
  - intros h1 Hl1. by apply (Process_ent_failure c h1 l e).
  - intros pre post ->. by apply (Process_loop_skip c pre post h l e).
Qed.



(** C4.  The rewrite is all or nothing.  One step of [Process] either
    leaves the store as it is or replaces one record by a record whose
    tag, timestamp and payload all come from one successful conversion of
    its payload; after a whole batch every record is the record it was,
    or the result of such complete rewrites. *)
Theorem C4_all_or_nothing (c : Corelight T) :
  wf c ->
  (forall (h : store) (ent : option loc),
     exists h',
       Process_ent c h ent = Done h' /\
       (h' = h \/
        exists l e e',
          ent = Some l /\ h !! l = Some e /\ Data e <> [] /\
          rewritten c e e' /\ h' = <[l := e']> h)) /\
  (forall (ents : list (option loc)) (h : store),
     exists h',
       Process_loop c ents h = Done h' /\
       forall l e, h !! l = Some e ->
         exists e', h' !! l = Some e' /\ rtc (rewritten c) e e').
Proof.
  intros Hwf. split.
  - intros h ent. by apply Process_ent_cases.
  - intros ents h. destruct (Process_loop_total c ents h Hwf) as [h' Eh'].
    exists h'. split; [done|].
    by apply (Process_loop_steps c ents h h' Hwf).
Qed.

(** C5.  [Process] returns no error and the slice it was given: the same
    pointers in the same order.  The store holds the same addresses
    afterwards, the elements are processed from left to right, and the
    empty batch is returned at once with the store untouched. *)
Theorem C5_batch_preserved (c : Corelight T) (ents : list (option loc))
    (h : store) :
  wf c ->
  Process c [] h = Done ([], None, h) /\
  exists h',
    Process c ents h = Done (ents, None, h') /\
    Process_loop c ents h = Done h' /\
    dom h' = dom h /\
    (forall a b, ents = a ++ b ->
       Process_loop c ents h = Process_loop c a h ≫= Process_loop c b).
Proof.
  intros Hwf. split; [done|].
  destruct (Process_loop_total c ents h Hwf) as [h' Eh'].
  exists h'. split; [|split; [done|split]].
  - unfold Process. destruct ents as [|ent ents]; [|by rewrite Eh'].
    by injection Eh' as <-.
  - by apply (Process_loop_steps c ents h h' Hwf).
  - intros a b ->. apply Process_loop_app.
Qed.

(** C6.  When a negotiation fails while the categories are visited,
    [NewCorelight] returns the error of that negotiation and no
    processor. *)
Theorem C6_init_failure (order : list (string * string))
    (cfg : CorelightConfig) (t : T) (err : error) :
  first_failure
    (map (fun kv => effective_prefix (Prefix cfg) +:+ kv.1) order) t
    = Some err ->
  NewCorelight order cfg (Some t) = Done (None, Some err).
Proof.
  intros Hf. unfold NewCorelight.
  destruct (init_unfold order
              {| tg := Some t; tagFields := ∅; tags := ∅; config := cfg |}
              cfg (Some t)) as (c0 & -> & Hp & _ & _ & Htg).
  pose proof (init_loop_outcome order c0 t Htg) as Ho.
  rewrite Hp in Ho. simpl in Ho. rewrite Hf in Ho.
  destruct Ho as [c' ->]. done.
Qed.

(** C7 (amended).  A record whose payload is an emitted line without any
    opening brace is left untouched when the transform runs on it again;
    an emitted line has no opening brace when no field text has one (the
    timestamp text and the texts of numbers and of absent fields never
    do). *)
Theorem C7_rerun_without_brace (c : Corelight T) (ts : Time) (h0 : string)
    (rest : list string) (mp : gmap string Value) (line : bytes)
    (h : store) (l : loc) (e : Entry) :
  emitLine ts (h0 :: rest) mp = Done (line, true) ->
  h !! l = Some e -> Data e = line ->
  (lbrace_byte ∉ line -> Process_ent c h (Some l) = Done h) /\
  (Forall (fun f => has_char LBRACE (field_text mp f) = false) rest ->
   lbrace_byte ∉ line) /\
  (forall f, has_char LBRACE (field_text mp f) = true ->
     exists v, mp !! f = Some v /\ (forall x, v <> VNum x) /\
               has_char LBRACE (fmt_v v) = true).
Proof.
  rewrite emitLine_eq. intros [= <-] Hl Hd. split; [|split].
  - intros Hn. apply (Process_ent_failure c h l e Hl).
    apply fail_no_brace. rewrite Hd. by apply IndexByte_None.
  - intros Hcells.
    rewrite <- (map_map (field_text mp) (fun x => tab_byte :: of_string x)).
    apply (line_lacks LBRACE); [done| |].
    + apply stamp_text_has_char. right. by right.
    + by apply Forall_map.
  - intros f. apply field_text_has_char. right. by right.
Qed.

(** C8.  The prefix of a processor is the [Prefix] of the configuration it
    embeds; [NewCorelight] stores there the configuration it is given, and
    [init] replaces an empty prefix by ["zeek"].  After an [init] without
    error the names in the tag table are exactly that prefix followed by a
    category of the schema table, the tag computed for a record is that
    prefix followed by the value of [_path], and the field list registered
    for a category is the split of its table entry whatever the prefix is.
    [CorelightLoadConfig] replaces an empty prefix by ["zeek"] as well. *)
Theorem C8_prefix (order : list (string * string)) (c0 c : Corelight T)
    (cfg : CorelightConfig) (tagger : option T) :
  order ≡ₚ tagHeaders ->
  init order c0 cfg tagger = Done (c, None) ->
  let p := effective_prefix (Prefix (config c0)) in
  Prefix (config c) = p /\
  effective_prefix "" = "zeek" /\
  (forall q, q <> "" -> effective_prefix q = q) /\
  (forall t, t ∈ dom (tags c) <->
             exists k v, (k, v) ∈ tagHeaders /\ t = p +:+ k) /\
  (forall mp tag ts, getTagTs c mp = (tag, ts, true) ->
     exists tagval, mp !! "_path" = Some (VStr tagval) /\
                    tag = p +:+ tagval) /\
  (forall k v, (k, v) ∈ tagHeaders ->
     tagFields c !! (p +:+ k) = Some (Split v ","%char)) /\
  (forall order' cfg' tagger' c',
     NewCorelight order' cfg' tagger' = Done (Some c', None) ->
     init order'
       {| tg := tagger'; tagFields := ∅; tags := ∅; config := cfg' |}
       cfg' tagger' = Done (c', None)) /\
  (forall vc c1, MapTo vc = (c1, None) ->
     CorelightLoadConfig vc
       = ({| Prefix := effective_prefix (Prefix c1) |}, None)).
Proof.
  intros Hperm Hi p.
  destruct (init_success _ _ _ _ _ Hperm Hi) as (Hp & Htab & Hdom & _).
  fold p in Hp. rewrite Hp in Htab.
  split; [done|]. split; [done|]. split; [|split; [|split; [|split; [|split]]]].
  - intros q Hq. unfold effective_prefix.
    apply String.eqb_neq in Hq. by rewrite Hq.
  - intros t. rewrite Hdom, Htab, elem_of_dom. split.
    + intros [hs Ht]. apply schema_lookup_inv in Ht as (k & v & ? & ? & _).
      by exists k, v.
    + intros (k & v & Hin & ->). rewrite (schema_lookup p k v Hin). by eexists.
  - intros mp tag ts Hg. apply getTagTs_true in Hg as (tv & ? & ? & _ & _ & ->).
    exists tv. by rewrite Hp.
  - intros k v Hin. rewrite Htab. by apply schema_lookup.
  - intros order' cfg' tagger' c'. apply NewCorelight_success.
  - intros vc [p0] E. unfold CorelightLoadConfig, effective_prefix.
    rewrite E. simpl. by destruct (String.eqb p0 "").
Qed.


(** C10.  [emitLine] returns a line and [true] for every non-empty field
    list and never returns [false]; so a record of a processor returned
    by [NewCorelight] whose decoded map passes the category and timestamp
    checks is rewritten. *)
Theorem C10_emission_total (order : list (string * string))
    (cfg : CorelightConfig) (tagger : option T) (c : Corelight T)
    (h : store) (l : loc) (e : Entry) (mp : gmap string Value)
    (tag : string) (ts : Time) (headers : list string) :
  constructed order cfg tagger c ->
  h !! l = Some e -> decodes (Data e) mp ->
  getTagTs c mp = (tag, ts, true) -> tagFields c !! tag = Some headers ->
  (forall ts' headers' mp', headers' <> [] ->
     exists line, emitLine ts' headers' mp' = Done (line, true)) /\
  (forall ts' headers' mp' line,
     emitLine ts' headers' mp' <> Done (line, false)) /\
  exists line tv,
    emitLine ts headers mp = Done (line, true) /\
    tags c !! tag = Some tv /\
    Process_ent c h (Some l)
      = Done (<[l := {| TS := FromStandard ts; Tag := tv; Data := line |}]> h).
Proof.
  intros Hc Hl Hd Hg Hh.
  destruct (constructed_spec _ _ _ _ Hc) as (Hp & Htab & Hdom & Hwf).
  split; [apply emitLine_Done|]. split; [apply emitLine_never_false|].
  destruct (emitLine_Done ts headers mp) as [line El].
  { by apply (Hwf _ _ Hh). }
  assert (Ht : is_Some (tags c !! tag)).
  { apply elem_of_dom. rewrite Hdom. apply elem_of_dom. by eexists. }
  destruct Ht as [tv Htv]. exists line, tv. split; [done|]. split; [done|].
  pose proof Hg as Hg'.
  apply getTagTs_true in Hg' as (tagval & tss & Hpath & _ & _ & ->).
  apply (Process_ent_converted c h l e mp (Prefix (config c) +:+ tagval)
           ts line tv Hl Hd); [| |done].
  - exists headers. split; [|done].
    intros Hz. apply map_size_empty_iff in Hz. by rewrite Hz in Hpath.
  - apply append_nonempty. rewrite Hp. apply effective_prefix_nonempty.
Qed.

End Claims.

(** * Further properties of the processor *)

Section FurtherFacts.
Context `{GoLib} {T : Type} `{!Tagger T}.
Import Corelight.

Lemma IndexByte_app_first (pre s : bytes) (c : byte) :
  c ∉ pre -> IndexByte (pre ++ c :: s) c = Some (length pre).
Proof.
  induction pre as [|x pre IH]; simpl; intros Hn.
  - by rewrite (proj2 (byte_eqb_true c c)).
  - apply not_elem_of_cons in Hn as [Hx Hn].
    rewrite (proj2 (byte_eqb_false x c)) by done.
    by rewrite IH.
Qed.

Lemma IndexByte_Some_split (s : bytes) (c : byte) (idx : nat) :
  IndexByte s c = Some idx ->
  exists s', s = take idx s ++ (c :: s') /\ (c ∉ take idx s) /\
             length (take idx s) = idx.
Proof.
  revert idx. induction s as [|x s IH]; intros idx; simpl; [done|].
  destruct (Byte.eqb x c) eqn:E.
  - intros [= <-]. apply byte_eqb_true in E as ->. exists s. simpl.
    split; [done|]. split; [apply not_elem_of_nil|done].
  - destruct (IndexByte s c) as [i|] eqn:Ei; [|done]. simpl. intros [= <-].
    destruct (IH i eq_refl) as (s' & Es & Hn & Hl). exists s'. simpl.
    split; [by rewrite <- Es|]. split; [|by rewrite Hl].
    apply not_elem_of_cons. split; [|done].
    apply byte_eqb_false in E. congruence.
Qed.

Lemma processLine_brace (c : Corelight T) (pre s : bytes) :
  lbrace_byte ∉ pre ->
  processLine c (pre ++ lbrace_byte :: s) = processLine c (lbrace_byte :: s).
Proof.
  intros Hn. unfold processLine.
  rewrite (IndexByte_app_first pre s lbrace_byte Hn).
  rewrite drop_app_length. done.
Qed.

Lemma outcome_bind_Done {A : Type} (m : outcome A) : m ≫= Done = m.
Proof. by destruct m. Qed.

Lemma Process_ent_rewrite_of (c : Corelight T) (h : store) (l : loc) (e : Entry) :
  h !! l = Some e ->
  Process_ent c h (Some l)
    = r ← rewrite_of c e; Done (from_option (fun e' => <[l := e']> h) h r).
Proof.
  intros Hl. unfold Process_ent, rewrite_of. rewrite Hl.
  destruct (Nat.eqb _ _); [done|].
  destruct (processLine c (Data e)) as [[[tag ts] line]|w]; [|done]. simpl.
  destruct (negb _); [|done]. by destruct (tags c !! tag).
Qed.

Lemma rewrite_of_total (c : Corelight T) (e : Entry) :
  wf c -> exists r, rewrite_of c e = Done r.
Proof.
  intros Hwf. unfold rewrite_of. destruct (Nat.eqb _ _); [by eexists|].
  destruct (processLine_cases c (Data e) Hwf) as (tag & ts & line & -> & _).
  simpl. destruct (negb _); [|by eexists]. destruct (tags c !! tag); by eexists.
Qed.

Lemma Process_ent_absent (c : Corelight T) (h : store) (l : loc) :
  h !! l = None -> Process_ent c h (Some l) = Done h.
Proof. intros Hl. unfold Process_ent. by rewrite Hl. Qed.

(** One step changes at most the record it points to. *)
Lemma Process_ent_frame (c : Corelight T) (h h' : store) (ent : option loc)
    (l : loc) :
  Process_ent c h ent = Done h' -> ent <> Some l -> h' !! l = h !! l.
Proof.
  destruct ent as [l0|]; [|by intros [= <-]].
  intros Hp Hne. destruct (h !! l0) as [e|] eqn:El.
  - rewrite (Process_ent_rewrite_of c h l0 e El) in Hp.
    destruct (rewrite_of c e) as [[e'|]|w]; simpl in Hp; try done;
      injection Hp as <-; [|done].
    rewrite lookup_insert_ne; [done|congruence].
  - rewrite (Process_ent_absent c h l0 El) in Hp. by injection Hp as <-.
Qed.

Lemma outcome_bind_ret {A B : Type} (a : A) (f : A -> outcome B) :
  Done a ≫= f = f a.
Proof. done. Qed.

(** The step for a record that stays where it is, on a store changed
    elsewhere. *)
Lemma Process_ent_rewrite_of_ne (c : Corelight T) (h : store) (l l0 : loc)
    (e : Entry) (r0 : option Entry) :
  h !! l = Some e -> l <> l0 ->
  Process_ent c (from_option (fun e' => <[l0 := e']> h) h r0) (Some l)
    = r ← rewrite_of c e;
      Done (from_option
              (fun e' => <[l := e']>
                           (from_option (fun e' => <[l0 := e']> h) h r0))
              (from_option (fun e' => <[l0 := e']> h) h r0) r).
Proof.
  intros Hl Hne. apply Process_ent_rewrite_of.
  destruct r0; simpl; [by rewrite lookup_insert_ne|done].
Qed.

Lemma Process_ent_absent_ne (c : Corelight T) (h : store) (l l0 : loc)
    (r0 : option Entry) :
  h !! l = None -> l <> l0 ->
  Process_ent c (from_option (fun e' => <[l0 := e']> h) h r0) (Some l)
    = Done (from_option (fun e' => <[l0 := e']> h) h r0).
Proof.
  intros Hl Hne. apply Process_ent_absent.
  destruct r0; simpl; [by rewrite lookup_insert_ne|done].
Qed.

(** The steps for two elements of a batch can be exchanged. *)
Lemma Process_ent_swap (c : Corelight T) (h : store) (a b : option loc) :
  wf c ->
  Process_ent c h a ≫= (fun h1 => Process_ent c h1 b)
  = Process_ent c h b ≫= (fun h1 => Process_ent c h1 a).
Proof.
  intros Hwf.
  destruct a as [la|]; [|by simpl; rewrite outcome_bind_Done].
  destruct b as [lb|]; [|by simpl; rewrite outcome_bind_Done].
  destruct (decide (la = lb)) as [->|Hne]; [done|].
  assert (Hne' : lb <> la) by congruence.
  destruct (h !! la) as [ea|] eqn:Ea; destruct (h !! lb) as [eb|] eqn:Eb.
  - rewrite (Process_ent_rewrite_of c h la ea Ea),
            (Process_ent_rewrite_of c h lb eb Eb).
    destruct (rewrite_of_total c ea Hwf) as [ra Era].
    destruct (rewrite_of_total c eb Hwf) as [rb Erb].
    rewrite Era, Erb, !outcome_bind_ret.
    rewrite (Process_ent_rewrite_of_ne c h lb la eb ra Eb Hne'),
            (Process_ent_rewrite_of_ne c h la lb ea rb Ea Hne).
    rewrite Era, Erb, !outcome_bind_ret.
    destruct ra as [ea'|], rb as [eb'|]; simpl; try done.
    by rewrite insert_insert_ne.
  - rewrite (Process_ent_rewrite_of c h la ea Ea), (Process_ent_absent c h lb Eb).
    destruct (rewrite_of_total c ea Hwf) as [ra Era].
    rewrite Era, !outcome_bind_ret.
    rewrite (Process_ent_absent_ne c h lb la ra Eb Hne').
    by rewrite (Process_ent_rewrite_of c h la ea Ea), Era.
  - rewrite (Process_ent_rewrite_of c h lb eb Eb), (Process_ent_absent c h la Ea).
    destruct (rewrite_of_total c eb Hwf) as [rb Erb].
    rewrite Erb, !outcome_bind_ret.
    rewrite (Process_ent_absent_ne c h la lb rb Ea Hne).
    by rewrite (Process_ent_rewrite_of c h lb eb Eb), Erb.
  - rewrite (Process_ent_absent c h la Ea), (Process_ent_absent c h lb Eb).
    rewrite !outcome_bind_ret.
    by rewrite (Process_ent_absent c h la Ea), (Process_ent_absent c h lb Eb).
Qed.

Lemma Process_loop_cons2 (c : Corelight T) (a b : option loc)
    (rest : list (option loc)) (h : store) :
  Process_loop c (a :: b :: rest) h
    = (Process_ent c h a ≫= (fun h1 => Process_ent c h1 b))
        ≫= Process_loop c rest.
Proof. simpl. by destruct (Process_ent c h a). Qed.


Lemma append_inj (p a b : string) : p +:+ a = p +:+ b -> a = b.
Proof. apply String.app_inj. Qed.

(** Where a loop that ends in an error stopped: the entries before the
    failing one are in both tables, the failing one in the field-list
    table only. *)
Lemma init_loop_failed (kvs : list (string * string)) (c c' : Corelight T)
    (err : error) :
  init_loop kvs c = Done (c', Some err) ->
  exists pre k v post,
    kvs = pre ++ (k, v) :: post /\
    tagFields c' !! (Prefix (config c) +:+ k) = Some (Split v ","%char) /\
    dom (tagFields c')
      = {[Prefix (config c) +:+ k]} ∪
        list_to_set (String.app (Prefix (config c)) <$> pre.*1) ∪
        dom (tagFields c) /\
    dom (tags c')
      = list_to_set (String.app (Prefix (config c)) <$> pre.*1) ∪
        dom (tags c).
Proof.
  revert c. induction kvs as [|[k v] kvs IH]; intros c; simpl; [done|].
  destruct (tg c) as [t|]; [|done].
  destruct (NegotiateTag _ t) as [[tv|e] t'].
  - intros Hl. apply IH in Hl as (pre & k' & v' & post & -> & Hf & Df & Dt).
    simpl in Hf, Df, Dt. exists ((k, v) :: pre), k', v', post.
    split; [done|]. split; [done|]. split.
    + rewrite Df, dom_insert_L. simpl. apply set_eq. intros x.
      rewrite !elem_of_union. tauto.
    + rewrite Dt, dom_insert_L. simpl. apply set_eq. intros x.
      rewrite !elem_of_union. tauto.
  - intros [= <- <-]. exists [], k, v, kvs. simpl.
    split; [done|]. split; [by rewrite lookup_insert_eq|].
    split.
    + rewrite dom_insert_L. apply set_eq. intros x.
      rewrite !elem_of_union, elem_of_empty. tauto.
    + apply set_eq. intros x. rewrite elem_of_union, elem_of_empty. tauto.
Qed.

Lemma init_loop_negotiated (kvs : list (string * string))
    (c c' : Corelight T) (err : option error) (t : T) :
  tg c = Some t -> init_loop kvs c = Done (c', err) ->
  let names := map (fun kv => Prefix (config c) +:+ kv.1) kvs in
  tags c' = list_to_map (reverse (negotiated names t).1) ∪ tags c /\
  tg c' = Some (negotiated names t).2 /\
  (err = None <-> length (negotiated names t).1 = length kvs).
Proof.
  revert c t. induction kvs as [|[k v] kvs IH]; intros c t Ht; simpl.
  - intros [= <- <-]. split; [by rewrite (left_id_L ∅ (∪))|]. done.
  - rewrite Ht. destruct (NegotiateTag _ t) as [[tv|e] t'] eqn:En.
    + intros Hl. eapply (IH _ t') in Hl as (Et & Eg & El); [|done].
      simpl in Et, Eg, El.
      destruct (negotiated _ t') as [l t''] eqn:Eneg. simpl in *.
      split; [|split; [done|]].
      * rewrite Et, reverse_cons, list_to_map_app. simpl.
        rewrite <- (assoc_L (∪)). f_equal.
        by rewrite insert_empty, <- insert_union_singleton_l.
      * rewrite El. lia.
    + intros [= <- <-]. simpl. split; [by rewrite (left_id_L ∅ (∪))|].
      split; [done|]. split; [done|]. discriminate.
Qed.

Lemma negotiated_keys (names : list string) (t : T) :
  (negotiated names t).1.*1 `prefix_of` names.
Proof.
  revert t. induction names as [|n names IH]; intros t; simpl.
  - done.
  - destruct (NegotiateTag n t) as [[tv|e] t'].
    + specialize (IH t'). destruct (negotiated names t') as [l t''].
      simpl in *. by apply prefix_cons.
    + apply prefix_nil.
Qed.

(** The facts about the schema table that the conversion relies on. *)
Lemma tagHeaders_shape :
  Forall (fun kv : string * string =>
            head (Split kv.2 ","%char) = Some "ts" /\
            (1 < length (Split kv.2 ","%char))%nat /\
            Forall (fun f => f <> "") (Split kv.2 ","%char))
    tagHeaders.
Proof. apply (bool_decide_unpack _). by vm_compute. Qed.

Lemma tagHeaders_conn (v : string) :
  ("conn", v) ∈ tagHeaders ->
  let hs := Split v ","%char in
  length hs = 22%nat /\
  hs !! 9%nat = Some "id.orig_ip_bytes" /\
  hs !! 17%nat = Some "id.orig_ip_bytes" /\
  hs !! 10%nat = Some "id.resp_ip_bytes" /\
  hs !! 19%nat = Some "id.resp_ip_bytes".
Proof.
  intros Hin.
  apply (elem_of_list_to_map_1 (M:=gmap string)) in Hin;
    [|apply tagHeaders_keys_NoDup].
  vm_compute in Hin. injection Hin as <-. by vm_compute.
Qed.

(** A processor without field lists converts nothing. *)
Lemma processLine_no_tables (c : Corelight T) (s : bytes) :
  tagFields c = ∅ ->
  exists ts line, processLine c s = Done (defaultTag, ts, line).
Proof.
  intros He. unfold processLine.
  destruct (IndexByte s lbrace_byte); [|by do 2 eexists].
  destruct (json_Unmarshal _) as [mp|]; [|by do 2 eexists].
  unfold process. destruct (Nat.eqb _ _); [by do 2 eexists|].
  destruct (getTagTs c mp) as [[tag ts] ok]. destruct ok; simpl.
  - rewrite He, lookup_empty. by do 2 eexists.
  - by do 2 eexists.
Qed.

Lemma field_text_ext (mp mp' : gmap string Value) (h : string) :
  mp !! h = mp' !! h -> field_text mp h = field_text mp' h.
Proof. unfold field_text. by intros ->. Qed.

End FurtherFacts.

Section Further.
Context `{GoLib} {T : Type} `{!Tagger T}.
Import Corelight.

(** X1.  Bytes in front of the first opening brace make no difference to
    the conversion: [processLine] returns the same tag, timestamp and line
    for a payload and for the payload cut at its first opening brace. *)
Theorem X1_framing_is_skipped (c : Corelight T) (pre s : bytes) :
  lbrace_byte ∉ pre ->
  processLine c (pre ++ lbrace_byte :: s) = processLine c (lbrace_byte :: s) /\
  (forall data idx, IndexByte data lbrace_byte = Some idx ->
     processLine c data = processLine c (drop idx data)).
Proof.
  intros Hn. split; [by apply processLine_brace|].
  intros data idx Hi.
  destruct (IndexByte_Some_split data lbrace_byte idx Hi) as (s' & Es & Hn' & Hl).
  rewrite Es at 1. rewrite (processLine_brace c _ s' Hn').
  f_equal. rewrite Es at 1. rewrite <- Hl at 1. by rewrite drop_app_length.
Qed.

(** X2.  The records of a batch are converted independently of one
    another: processing the elements of a batch in any other order leaves
    the same records behind. *)
Theorem X2_batch_order_irrelevant (c : Corelight T)
    (ents ents' : list (option loc)) (h : store) :
  wf c -> ents ≡ₚ ents' ->
  Process_loop c ents h = Process_loop c ents' h.
Proof.
  intros Hwf Hp. revert h.
  induction Hp as [|x l l' _ IH|x y l|l l' l'' _ IH1 _ IH2]; intros h.
  - done.
  - rewrite !Process_loop_cons. destruct (Process_ent c h x); simpl; [apply IH|done].
  - rewrite !Process_loop_cons2. by rewrite (Process_ent_swap c h y x Hwf).
  - by rewrite IH1.
Qed.

(** X3.  A batch changes no record it does not point to. *)
Theorem X3_batch_frame (c : Corelight T) (ents : list (option loc))
    (h h' : store) (l : loc) :
  Some l ∉ ents -> Process_loop c ents h = Done h' -> h' !! l = h !! l.
Proof.
  revert h. induction ents as [|ent ents IH]; intros h Hn.
  - by intros [= <-].
  - apply not_elem_of_cons in Hn as [Hne Hn].
    rewrite Process_loop_cons.
    destruct (Process_ent c h ent) as [h1|w] eqn:E1; [|done]. simpl.
    intros Hl. rewrite (IH h1 Hn Hl).
    apply (Process_ent_frame c h h1 ent l E1). congruence.
Qed.

(** X4.  What a batch does to a record depends on the store only
    through that record: two runs of the same batch from stores that hold
    the same record at an address leave the same record there. *)
Theorem X4_batch_noninterference (c : Corelight T)
    (ents : list (option loc)) (h1 h2 h1' h2' : store) (l : loc) :
  h1 !! l = h2 !! l ->
  Process_loop c ents h1 = Done h1' -> Process_loop c ents h2 = Done h2' ->
  h1' !! l = h2' !! l.
Proof.
  revert h1 h2. induction ents as [|ent ents IH]; intros h1 h2 Hl.
  - by intros [= <-] [= <-].
  - rewrite !Process_loop_cons.
    destruct (Process_ent c h1 ent) as [k1|w] eqn:E1; [|done].
    destruct (Process_ent c h2 ent) as [k2|w] eqn:E2; [|done]. simpl.
    apply IH. destruct (decide (ent = Some l)) as [->|Hne].
    + destruct (h1 !! l) as [e|] eqn:El.
      * rewrite (Process_ent_rewrite_of c h1 l e El) in E1.
        rewrite (Process_ent_rewrite_of c h2 l e) in E2 by done.
        destruct (rewrite_of c e) as [[e'|]|w]; simpl in *; try done;
          injection E1 as <-; injection E2 as <-.
        -- by rewrite !lookup_insert_eq.
        -- by rewrite El.
      * rewrite (Process_ent_absent c h1 l El) in E1.
        rewrite (Process_ent_absent c h2 l) in E2 by done.
        injection E1 as <-. injection E2 as <-. by rewrite El.
    + rewrite (Process_ent_frame c h1 k1 ent l E1 Hne).
      by rewrite (Process_ent_frame c h2 k2 ent l E2 Hne).
Qed.

(** X5.  An [init] that returns an error has updated its receiver as far
    as it came: the category whose negotiation failed has a field list
    but no tag, every category visited before it has both, and a record
    of the failing category is left as it is although it converts. *)
Theorem X5_failed_init_tables (order : list (string * string))
    (c0 c : Corelight T) (cfg : CorelightConfig) (tagger : option T)
    (err : error) :
  NoDup order.*1 ->
  init order c0 cfg tagger = Done (c, Some err) ->
  let p := effective_prefix (Prefix (config c0)) in
  exists k v,
    (k, v) ∈ order /\
    Prefix (config c) = p /\
    tagFields c !! (p +:+ k) = Some (Split v ","%char) /\
    tags c !! (p +:+ k) = None /\
    dom (tagFields c) = {[p +:+ k]} ∪ dom (tags c) /\
    (forall (h : store) l e mp tss ts,
       h !! l = Some e -> decodes (Data e) mp ->
       mp !! "_path" = Some (VStr k) -> mp !! "ts" = Some (VStr tss) ->
       time_Parse tss = Some ts ->
       exists line,
         processLine c (Data e) = Done (p +:+ k, ts, line) /\
         Process_ent c h (Some l) = Done h).
Proof.
  intros Hnd Hi p.
  destruct (init_unfold order c0 cfg tagger) as (c1 & E & Hp & Hf & Ht & _).
  rewrite E in Hi.
  pose proof (init_loop_config _ _ _ _ Hi) as Hc.
  destruct (init_loop_failed _ _ _ _ Hi)
    as (pre & k & v & post & -> & Hfk & Df & Dt).
  rewrite Hp in Hfk, Df, Dt. fold p in Hfk, Df, Dt.
  rewrite Hf, dom_empty_L, (right_id_L ∅ (∪)) in Df.
  rewrite Ht, dom_empty_L, (right_id_L ∅ (∪)) in Dt.
  assert (Hpc : Prefix (config c) = p) by (by rewrite Hc, Hp).
  assert (Hnone : tags c !! (p +:+ k) = None).
  { apply not_elem_of_dom. rewrite Dt, elem_of_list_to_set.
    intros Hin. apply list_elem_of_fmap in Hin as (k' & Ek & Hin).
    apply (inj (String.app p)) in Ek as <-.
    rewrite fmap_app in Hnd. apply NoDup_app in Hnd as (_ & Hnd & _).
    apply (Hnd k Hin). simpl. apply list_elem_of_here. }
  exists k, v. split; [apply elem_of_app; right; apply list_elem_of_here|].
  split; [done|]. split; [done|]. split; [done|]. split; [by rewrite Df, Dt|].
  intros h l e mp tss ts Hl Hd Hpath Hts Hparse.
  destruct (Split v ","%char) as [|h0 rest] eqn:Es.
  { by destruct (Split_nonempty v ","%char). }
  eexists. 
  assert (Hconv : processLine c (Data e)
            = Done (p +:+ k, ts,
                    of_string (stamp_text ts) ++
                    concat (map (fun h => tab_byte :: of_string (field_text mp h))
                              rest))).
  { apply (processLine_converted c (Data e) mp); [done|].
    exists (h0 :: rest). split; [|split; [|split]].
    - intros Hz. apply map_size_empty_iff in Hz. by rewrite Hz in Hpath.
    - apply getTagTs_true. exists k, tss. by rewrite Hpc.
    - done.
    - apply emitLine_eq. }
  split; [exact Hconv|].
  unfold Process_ent. rewrite Hl.
  destruct (Nat.eqb (length (Data e)) 0); [done|].
  rewrite Hconv. simpl. destruct (negb _); [|done]. by rewrite Hnone.
Qed.

(** X6.  [Config] never takes over the configuration or the tagger it is
    handed.  On a processor returned by [NewCorelight], a [Config] that
    reports no error leaves the prefix and the field-list table as they
    were and the tag table with the same names, whatever prefix the new
    configuration carries; a nil value or a value of another type is
    refused and the processor is left as it is. *)
Theorem X6_Config_keeps_prefix (order order' : list (string * string))
    (cfg cfg' : CorelightConfig) (tagger tagger' : option T)
    (c c' : Corelight T) :
  constructed order cfg tagger c ->
  order' ≡ₚ tagHeaders ->
  Config order' c (DynCorelightConfig cfg') tagger' = Done (c', None) ->
  config c' = config c /\
  tagFields c' = tagFields c /\
  dom (tags c') = dom (tags c) /\
  Config order' c DynNil tagger' = Done (c, Some ErrNilConfig) /\
  (forall n, exists e, Config order' c (DynOther n) tagger' = Done (c, Some e)).
Proof.
  intros Hc Hp Hcfg.
  destruct (constructed_spec _ _ _ _ Hc) as (Hpre & Htab & Hdom & _).
  change (init order' c cfg' tagger' = Done (c', None)) in Hcfg.
  destruct (init_success _ _ _ _ _ Hp Hcfg) as (Hpre' & Htab' & Hdom' & _).
  assert (E : Prefix (config c') = Prefix (config c)).
  { rewrite Hpre'. unfold effective_prefix.
    destruct (String.eqb (Prefix (config c)) "") eqn:Ee; [|done].
    apply String.eqb_eq in Ee. rewrite Hpre in Ee.
    by destruct (effective_prefix_nonempty (Prefix cfg)). }
  assert (Et : tagFields c' = tagFields c).
  { rewrite Htab', Htab, E. reflexivity. }
  split; [|split; [done|split; [by rewrite Hdom', Hdom, Et|]]].
  - destruct (config c'), (config c). simpl in E. by rewrite E.
  - split; [done|]. intros n. by eexists.
Qed.

(** X7.  A processor cannot be built without a tagger: [NewCorelight]
    with a nil tagger panics at the first negotiation instead of
    returning an error. *)
Theorem X7_nil_tagger_panics (order : list (string * string))
    (cfg : CorelightConfig) :
  order ≡ₚ tagHeaders ->
  exists w, NewCorelight order cfg None = Panic w.
Proof.
  intros Hp. unfold NewCorelight.
  destruct (init_nil_tagger order
              {| tg := None; tagFields := ∅; tags := ∅; config := cfg |}
              cfg None) as [w ->]; [done| |by exists w].
  intros ->. by apply Permutation_nil_l in Hp.
Qed.

(** X8.  [emitLine] reads the decoded map at the field names after the
    first one and nowhere else: the first name of the field list and the
    keys that the field list does not name have no influence on the
    line. *)
Theorem X8_emitLine_reads_listed_fields (ts : Time) (h0 h0' : string)
    (rest : list string) (mp mp' : gmap string Value) :
  (forall f, f ∈ rest -> mp !! f = mp' !! f) ->
  emitLine ts (h0 :: rest) mp = emitLine ts (h0' :: rest) mp'.
Proof.
  intros Hag. rewrite !emitLine_eq.
  assert (E : map (fun h => tab_byte :: of_string (field_text mp h)) rest
            = map (fun h => tab_byte :: of_string (field_text mp' h)) rest).
  { apply map_ext_in. intros f Hin. f_equal. f_equal.
    apply field_text_ext, Hag. by apply list_elem_of_In. }
  by rewrite E.
Qed.

(** X9.  The field list of [conn] names [id.orig_ip_bytes] and
    [id.resp_ip_bytes] twice, so every converted connection record
    carries the same text in columns 9 and 17 and in columns 10 and
    19. *)
Theorem X9_conn_repeats_columns (order : list (string * string))
    (cfg : CorelightConfig) (tagger : option T) (c : Corelight T)
    (headers : list string) (ts : Time) (mp : gmap string Value)
    (line : bytes) :
  constructed order cfg tagger c ->
  tagFields c !! (Prefix (config c) +:+ "conn") = Some headers ->
  emitLine ts headers mp = Done (line, true) ->
  Forall (fun f => has_char TAB (field_text mp f) = false) (tail headers) ->
  length (columns line) = 22%nat /\
  columns line !! 9%nat = Some (of_string (field_text mp "id.orig_ip_bytes")) /\
  columns line !! 17%nat = Some (of_string (field_text mp "id.orig_ip_bytes")) /\
  columns line !! 10%nat = Some (of_string (field_text mp "id.resp_ip_bytes")) /\
  columns line !! 19%nat = Some (of_string (field_text mp "id.resp_ip_bytes")).
Proof.
  intros Hc Hh He Hcells.
  destruct (constructed_spec _ _ _ _ Hc) as (_ & Htab & _ & _).
  rewrite Htab in Hh.
  apply schema_lookup_inv in Hh as (k & v & Hin & Ek & ->).
  apply append_inj in Ek as <-.
  destruct (tagHeaders_conn v Hin) as (Hlen & H9 & H17 & H10 & H19).
  cbv zeta in *.
  destruct (Split v ","%char) as [|h0 rest] eqn:Es; [done|].
  rewrite emitLine_eq in He. injection He as <-. simpl in Hcells.
  assert (E : columns
            (of_string (stamp_text ts) ++
             concat (map (fun h => tab_byte :: of_string (field_text mp h))
                       rest))
          = of_string (stamp_text ts)
            :: map of_string (map (field_text mp) rest)).
  { rewrite <- (map_map (field_text mp) (fun x => tab_byte :: of_string x)).
    rewrite <- (map_map of_string (cons tab_byte)).
    apply columns_join.
    - apply (not_elem_of_of_string TAB), stamp_text_has_char. by left.
    - apply Forall_map, Forall_map. eapply Forall_impl; [exact Hcells|].
      intros x Hx. by apply (not_elem_of_of_string TAB). }
  rewrite E. simpl in *. rewrite !length_map.
  split; [done|].
  rewrite !map_map.
  change (map (fun x => of_string (field_text mp x)) rest)
    with ((fun x => of_string (field_text mp x)) <$> rest).
  rewrite !list_lookup_fmap, H9, H17, H10, H19. done.
Qed.

(** X10.  The tables of a processor returned by [NewCorelight] hold the
    whole schema: 32 field lists and 32 tags; every field list starts
    with [ts], the column [emitLine] skips, names at least one more
    column, and holds no empty name. *)
Theorem X10_schema_tables (order : list (string * string))
    (cfg : CorelightConfig) (tagger : option T) (c : Corelight T) :
  constructed order cfg tagger c ->
  size (tagFields c) = 32%nat /\ size (tags c) = 32%nat /\
  forall tag headers, tagFields c !! tag = Some headers ->
    exists rest, headers = "ts" :: rest /\ rest <> [] /\
                 Forall (fun f => f <> "") headers.
Proof.
  intros Hc.
  destruct (constructed_spec _ _ _ _ Hc) as (_ & Htab & Hdom & _).
  assert (Hs : size (tagFields c) = 32%nat).
  { rewrite Htab, map_size_list_to_map.
    - unfold schema_of. by rewrite length_map.
    - apply schema_of_keys_NoDup, tagHeaders_keys_NoDup. }
  split; [done|]. split.
  - by rewrite <- size_dom, Hdom, size_dom.
  - intros tag headers Hh. rewrite Htab in Hh.
    apply schema_lookup_inv in Hh as (k & v & Hin & _ & ->).
    pose proof tagHeaders_shape as Hall.
    rewrite Forall_forall in Hall.
    destruct (Hall (k, v) Hin) as (Hhd & Hlen & Hne). simpl in *.
    destruct (Split v ","%char) as [|h0 rest]; [done|].
    injection Hhd as ->. exists rest. split; [done|]. split; [|done].
    intros ->. simpl in Hlen. lia.
Qed.

(** X11.  [init] asks the tagger for one name after the other, in the
    order the table is visited, and stops at the first refusal; the tag
    table maps every name to the tag returned for it, and the processor
    holds the tagger in the state the last call left it in. *)
Theorem X11_tags_are_negotiated (order : list (string * string))
    (c0 c : Corelight T) (cfg : CorelightConfig) (tagger : option T)
    (t : T) (err : option error) :
  tg c0 = Some t -> NoDup order.*1 ->
  init order c0 cfg tagger = Done (c, err) ->
  let p := effective_prefix (Prefix (config c0)) in
  let run := negotiated (map (fun kv => p +:+ kv.1) order) t in
  tags c = list_to_map run.1 /\
  tg c = Some run.2 /\
  (forall name tv, (name, tv) ∈ run.1 <-> tags c !! name = Some tv) /\
  (err = None <-> length run.1 = length order).
Proof.
  intros Ht Hnd Hi p run.
  destruct (init_unfold order c0 cfg tagger) as (c1 & E & Hp & _ & Ht1 & Hg).
  rewrite E in Hi. rewrite <- Hg in Ht.
  destruct (init_loop_negotiated order c1 c err t Ht Hi) as (Et & Eg & El).
  rewrite Hp in Et, Eg, El. fold p in Et, Eg, El. fold run in Et, Eg, El.
  rewrite Ht1, (right_id_L ∅ (∪)) in Et.
  assert (Hk : NoDup run.1.*1).
  { destruct (negotiated_keys (map (fun kv => p +:+ kv.1) order) t)
      as [rest Er].
    assert (Hn : NoDup (map (fun kv : string * string => p +:+ kv.1) order)).
    { replace (map (fun kv : string * string => p +:+ kv.1) order)
        with (String.app p <$> order.*1).
      - apply (NoDup_fmap_2 (String.app p)), Hnd.
      - rewrite <- list_fmap_compose. done. }
    fold run in Er. rewrite Er in Hn. by apply NoDup_app in Hn as (? & _). }
  assert (Etags : tags c = list_to_map run.1).
  { rewrite Et. apply list_to_map_proper.
    - by rewrite reverse_Permutation.
    - by rewrite reverse_Permutation. }
  split; [done|]. split; [done|]. split; [|done].
  intros name tv. rewrite Etags. by apply elem_of_list_to_map.
Qed.

(** X12.  A record whose [_path] is not, letter for letter, one of the
    categories of the schema table is left as it is. *)
Theorem X12_unknown_category (order : list (string * string))
    (cfg : CorelightConfig) (tagger : option T) (c : Corelight T)
    (h : store) (l : loc) (e : Entry) (mp : gmap string Value) (k : string) :
  constructed order cfg tagger c ->
  h !! l = Some e -> decodes (Data e) mp ->
  mp !! "_path" = Some (VStr k) -> k ∉ tagHeaders.*1 ->
  Process_ent c h (Some l) = Done h.
Proof.
  intros Hc Hl Hd Hpath Hk.
  destruct (constructed_spec _ _ _ _ Hc) as (_ & Htab & _ & _).
  apply (Process_ent_failure c h l e Hl).
  apply (fail_category c (Data e) mp k Hd Hpath).
  destruct (tagFields c !! _) as [hs|] eqn:Eh; [|done].
  rewrite Htab in Eh. apply schema_lookup_inv in Eh as (k' & v & Hin & Ek & _).
  apply append_inj in Ek as <-. destruct Hk.
  apply list_elem_of_fmap. by exists (k, v).
Qed.

(** X13.  A configuration returned by [CorelightLoadConfig] without
    error has a prefix that is not empty, and the processor
    [NewCorelight] builds from it embeds that configuration as it is. *)
Theorem X13_loaded_configuration (vc : VariableConfig)
    (order : list (string * string)) (cfg : CorelightConfig)
    (tagger : option T) (c : Corelight T) :
  CorelightLoadConfig vc = (cfg, None) ->
  constructed order cfg tagger c ->
  Prefix cfg <> "" /\ config c = cfg.
Proof.
  intros Hload Hc.
  destruct (constructed_spec _ _ _ _ Hc) as (Hp & _).
  assert (Hne : Prefix cfg <> "").
  { unfold CorelightLoadConfig in Hload.
    destruct (MapTo vc) as [c1 [e|]]; [done|].
    destruct (String.eqb (Prefix c1) "") eqn:E; injection Hload as <-; [done|].
    by apply String.eqb_neq. }
  split; [done|].
  unfold effective_prefix in Hp. apply String.eqb_neq in Hne.
  rewrite Hne in Hp. destruct (config c), cfg. simpl in Hp. by rewrite Hp.
Qed.

(** X14.  A processor whose tables are empty, such as a [Corelight]
    value on which [init] never ran, returns every batch with all its
    records as they are. *)
Theorem X14_uninitialised_passes_through (c : Corelight T)
    (ents : list (option loc)) (h : store) :
  tagFields c = ∅ ->
  Process c ents h = Done (ents, None, h).
Proof.
  intros He.
  assert (Hent : forall ent, Process_ent c h ent = Done h).
  { intros [l|]; [|done]. unfold Process_ent.
    destruct (h !! l) as [e|]; [|done].
    destruct (Nat.eqb _ _); [done|].
    by destruct (processLine_no_tables c (Data e) He) as (ts & line & ->). }
  assert (Hloop : Process_loop c ents h = Done h).
  { induction ents as [|ent ents IH]; [done|].
    by rewrite Process_loop_cons, Hent. }
  unfold Process. rewrite Hloop. by destruct ents.
Qed.

End Further.

(** * The relay configuration *)

Section StringsFacts.

Lemma CutPrefix_app (pre rest : string) : CutPrefix (pre +:+ rest) pre = Some rest.
Proof.
  induction pre as [|a pre IH]; [reflexivity|]. rewrite append_cons.
  cbn [CutPrefix]. by rewrite Ascii.eqb_refl.
Qed.

Lemma CutPrefix_Some (s pre rest : string) :
  CutPrefix s pre = Some rest -> s = pre +:+ rest.
Proof.
  revert s. induction pre as [|a pre IH]; intros s; simpl.
  - by intros [= ->].
  - destruct s as [|b s]; [done|].
    destruct (Ascii.eqb a b) eqn:E; [|done].
    apply Ascii.eqb_eq in E as ->. intros Hc. rewrite append_cons.
    by rewrite (IH s Hc).
Qed.

(** [Cut] splits the string around an occurrence of the separator. *)
Lemma Cut_Some (s sep a b : string) :
  Cut s sep = Some (a, b) -> s = a +:+ sep +:+ b.
Proof.
  revert a. induction s as [|x s IH]; intros a; simpl.
  - destruct (CutPrefix "" sep) as [rest|] eqn:E; [|done].
    intros [= <- <-]. by apply CutPrefix_Some in E.
  - destruct (CutPrefix (String x s) sep) as [rest|] eqn:E.
    + intros [= <- <-]. by apply CutPrefix_Some in E.
    + destruct (Cut s sep) as [[a' b']|] eqn:Ec; [|done]. simpl.
      intros [= <- <-]. rewrite append_cons. by rewrite (IH a' eq_refl).
Qed.

(** [Cut] finds the separator whenever there is one. *)
Lemma Cut_None (s sep a b : string) :
  Cut s sep = None -> s <> a +:+ sep +:+ b.
Proof.
  revert s. induction a as [|x a IH]; intros s Hc ->.
  - change ("" +:+ sep +:+ b) with (sep +:+ b) in Hc.
    destruct (sep +:+ b) as [|y r] eqn:E; simpl in Hc.
    + destruct sep; [done|]. by rewrite append_cons in E.
    + rewrite <- E, CutPrefix_app in Hc. done.
  - rewrite append_cons in Hc. simpl in Hc.
    destruct (CutPrefix _ sep); [done|].
    destruct (Cut (a +:+ sep +:+ b) sep) as [p|] eqn:Ec; [done|].
    by apply (IH _ Ec).
Qed.

(** The first occurrence of [://] after a text without colon. *)
Lemma Cut_scheme (scheme rest : string) :
  has_char ":" scheme = false ->
  Cut (scheme +:+ "://" +:+ rest) "://" = Some (scheme, rest).
Proof.
  induction scheme as [|a scheme IH]; [done|].
  unfold has_char. cbn [string_forallb]. rewrite negb_false_iff, andb_true_iff.
  intros [Ha Hs]. rewrite append_cons.
  cbn [Cut CutPrefix]. rewrite Ascii.eqb_sym.
  apply negb_true_iff in Ha. rewrite Ha.
  rewrite IH; [done|]. unfold has_char. by rewrite Hs.
Qed.

Lemma lower_colon (a : ascii) : Ascii.eqb (lower a) ":" = Ascii.eqb a ":".
Proof. by destruct a as [[] [] [] [] [] [] [] []]. Qed.

Lemma to_lower_colon (s : string) :
  has_char ":" (to_lower s) = has_char ":" s.
Proof.
  unfold has_char. f_equal. induction s as [|a s IH]; [done|].
  cbn [to_lower string_forallb]. by rewrite IH, lower_colon.
Qed.

Lemma is_space_ascii (a : ascii) :
  is_space a = true -> (nat_of_ascii a <? 128)%nat = true.
Proof. by destruct a as [[] [] [] [] [] [] [] []]. Qed.

Lemma spaces_ascii_only (s : string) :
  string_forallb is_space s = true -> ascii_only s = true.
Proof.
  unfold ascii_only. apply string_forallb_impl. apply is_space_ascii.
Qed.

Lemma trim_left_spaces (ws s : string) :
  string_forallb is_space ws = true -> trim_left (ws +:+ s) = trim_left s.
Proof.
  induction ws as [|a ws IH]; [done|]. cbn [string_forallb].
  intros [Ha Hs]%andb_true_iff. rewrite append_cons. cbn [trim_left].
  rewrite Ha. by apply IH.
Qed.

Lemma trim_right_spaces (ws : string) :
  string_forallb is_space ws = true -> trim_right ws = "".
Proof.
  induction ws as [|a ws IH]; [done|]. cbn [string_forallb].
  intros [Ha Hs]%andb_true_iff. cbn [trim_right]. by rewrite IH, Ha.
Qed.

Lemma trim_right_cons (a : ascii) (s : string) :
  is_space a = false -> trim_right (String a s) = String a (trim_right s).
Proof. intros Ha. cbn [trim_right]. rewrite Ha. by destruct (trim_right s). Qed.

Lemma ascii_only_app (a b : string) :
  ascii_only (a +:+ b) = ascii_only a && ascii_only b.
Proof. apply string_forallb_app. Qed.

End StringsFacts.

Section RelayFacts.
Context `{IngestLib} `{!GoStrings}.
Import Relay.

Lemma bind_names (bt : bindType) :
  bt ∈ [tcp; udp; tcp6; udp6] ->
  has_char ":" (bindType_String bt) = false /\
  ascii_only (bindType_String bt) = true /\
  to_lower (bindType_String bt) = bindType_String bt.
Proof.
  rewrite !elem_of_cons.
  intros [->|[->|[->|[->|Hn]]]]; [done..|by apply elem_of_nil in Hn].
Qed.

Lemma translateBindType_scheme (scheme rest : string) (bt : bindType) :
  ascii_only scheme = true ->
  bt ∈ [tcp; udp; tcp6; udp6] ->
  to_lower scheme = bindType_String bt ->
  translateBindType (scheme +:+ "://" +:+ rest) = (bt, rest, None).
Proof.
  intros Ha Hbt Hl. destruct (bind_names bt Hbt) as (Hc & _ & _).
  unfold translateBindType, SplitN2. rewrite Cut_scheme.
  - rewrite (ToLower_ascii scheme Ha), Hl. revert Hbt. rewrite !elem_of_cons.
    intros [->|[->|[->|[->|Hn]]]]; [done..|by apply elem_of_nil in Hn].
  - by rewrite <- to_lower_colon, Hl.
Qed.

Lemma tagged_idemp (v : listener) : tagged (tagged v) = tagged v.
Proof.
  unfold tagged. destruct (Nat.eqb (String.length (Tag_Name v)) 0) eqn:E.
  - done.
  - by rewrite E.
Qed.

Lemma tagged_Bind_String (v : listener) :
  Bind_String (tagged v) = Bind_String v.
Proof. unfold tagged. by destruct (Nat.eqb _ _). Qed.

Lemma tagged_Tag_Name (v : listener) : Tag_Name (tagged v) <> "".
Proof.
  unfold tagged. destruct (Nat.eqb (String.length (Tag_Name v)) 0) eqn:E.
  - done.
  - intros Hz. by rewrite Hz in E.
Qed.

Lemma acceptable_tagged (v : listener) : acceptable (tagged v) <-> acceptable v.
Proof. unfold acceptable. by rewrite tagged_idemp, tagged_Bind_String. Qed.

Lemma length_zero_empty (s : string) :
  Nat.eqb (String.length s) 0 = true <-> s = "".
Proof. by destruct s. Qed.

(** One pass of the loop of [verifyConfig]. *)
Lemma verify_loop_cons (k : string) (l : loc) (rest : list (string * loc))
    (bindMp : gmap string string) (h : heap) (v : listener) :
  h !! l = Some v ->
  verify_loop ((k, l) :: rest) bindMp h =
    if Nat.eqb (String.length (Bind_String v)) 0 then
      Done (h, Some (errors_New ("No Bind-String provided for " +:+ k)))
    else if forbidden_tag (Tag_Name (tagged v)) then
      Done (<[l := tagged v]> h,
            Some (errors_New ("Invalid characters in the Tag-Name for " +:+ k)))
    else
      match bindMp !! Bind_String v with
      | Some n =>
          Done (<[l := tagged v]> h,
                Some (errors_New ("Bind-String for " +:+ k +:+
                                  " already in use by " +:+ n)))
      | None =>
          verify_loop rest (<[Bind_String v := k]> bindMp)
            (<[l := tagged v]> h)
      end.
Proof.
  intros Hl. cbn [verify_loop]. rewrite Hl.
  destruct (Nat.eqb (String.length (Bind_String v)) 0); [done|].
  unfold tagged.
  destruct (Nat.eqb (String.length (Tag_Name v)) 0); [done|].
  by rewrite (insert_id h l v Hl).
Qed.

Lemma visited_insert (kvs : list (string * loc)) (h : heap) (l : loc)
    (v : listener) :
  h !! l = Some v ->
  visited kvs (<[l := tagged v]> h)
    = map (fun kl : string * loc =>
             if decide (kl.2 = l) then Some (tagged v) else h !! kl.2) kvs.
Proof.
  intros Hl. unfold visited. apply map_ext. intros [k l2]. simpl.
  destruct (decide (l2 = l)) as [->|Hne].
  - by rewrite lookup_insert_eq.
  - by rewrite lookup_insert_ne.
Qed.

Lemma visited_insert_binds (kvs : list (string * loc)) (h : heap) (l : loc)
    (v : listener) :
  h !! l = Some v ->
  bind_strings kvs (<[l := tagged v]> h) = bind_strings kvs h.
Proof.
  intros Hl. unfold bind_strings.
  rewrite (visited_insert kvs h l v Hl). unfold visited.
  rewrite !map_map. apply map_ext. intros [k l2]. simpl.
  destruct (decide (l2 = l)) as [->|Hne]; [|done].
  rewrite Hl. simpl. by rewrite tagged_Bind_String.
Qed.

Lemma visited_insert_Forall (kvs : list (string * loc)) (h : heap) (l : loc)
    (v : listener) (P : string -> Prop) :
  h !! l = Some v ->
  Forall (fun o => exists v', o = Some v' /\ acceptable v' /\ P (Bind_String v'))
    (visited kvs (<[l := tagged v]> h)) <->
  Forall (fun o => exists v', o = Some v' /\ acceptable v' /\ P (Bind_String v'))
    (visited kvs h).
Proof.
  intros Hl. rewrite (visited_insert kvs h l v Hl). unfold visited.
  rewrite !Forall_map. apply Forall_iff. intros [k l2]. simpl.
  destruct (decide (l2 = l)) as [->|Hne]; [|done].
  rewrite Hl. split.
  - intros (v' & [= <-] & Ha & Hp). exists v. split; [done|].
    rewrite tagged_Bind_String in Hp. split; [by apply acceptable_tagged|done].
  - intros (v' & [= <-] & Ha & Hp). exists (tagged v). split; [done|].
    rewrite tagged_Bind_String. split; [by apply acceptable_tagged|done].
Qed.

Lemma after_cons (k : string) (l : loc) (rest : list (string * loc))
    (h h' : heap) (v : listener) :
  h !! l = Some v ->
  after rest (<[l := tagged v]> h) h' <-> after ((k, l) :: rest) h h'.
Proof.
  intros Hl. unfold after. apply forall_proper. intros x.
  rewrite fmap_cons. simpl.
  destruct (decide (x = l)) as [->|Hne].
  - rewrite lookup_insert_eq, (bool_decide_eq_true_2 (l ∈ l :: rest.*2))
      by apply list_elem_of_here.
    rewrite Hl. simpl. rewrite tagged_idemp. by destruct (bool_decide _).
  - rewrite lookup_insert_ne by done.
    destruct (bool_decide (x ∈ rest.*2)) eqn:E.
    + apply bool_decide_eq_true in E.
      rewrite (bool_decide_eq_true_2 (x ∈ l :: rest.*2)); [done|].
      by apply list_elem_of_further.
    + apply bool_decide_eq_false in E.
      rewrite (bool_decide_eq_false_2 (x ∈ l :: rest.*2)); [done|].
      rewrite elem_of_cons. tauto.
Qed.

(** When the loop of [verifyConfig] runs to its end. *)
Lemma verify_loop_spec (kvs : list (string * loc))
    (bindMp : gmap string string) (h h' : heap) :
  verify_loop kvs bindMp h = Done (h', None) <->
  Forall (fun o => exists v, o = Some v /\ acceptable v /\
                             bindMp !! Bind_String v = None)
    (visited kvs h) /\
  NoDup (bind_strings kvs h) /\
  after kvs h h'.
Proof.
  revert bindMp h. induction kvs as [|[k l] rest IH]; intros bindMp h.
  - simpl. split.
    + intros [= <-]. split; [constructor|]. split; [constructor|]. by intros l.
    + intros (_ & _ & Ha). f_equal. f_equal. apply map_eq. intros l.
      by rewrite (Ha l).
  - destruct (h !! l) as [v|] eqn:Hl.
    + rewrite (verify_loop_cons k l rest bindMp h v Hl).
      rewrite <- (after_cons k l rest h h' v Hl).
      unfold bind_strings, visited. rewrite !map_cons.
      fold (visited rest h). fold (bind_strings rest h).
      cbn [snd]. rewrite Hl, Forall_cons, NoDup_cons. cbn [fmap option_fmap option_map].
      destruct (Nat.eqb (String.length (Bind_String v)) 0) eqn:Eb.
      { apply length_zero_empty in Eb. split; [done|].
        intros [[(v' & [= <-] & [Hne _] & _) _] _]. done. }
      destruct (forbidden_tag (Tag_Name (tagged v))) eqn:Ef.
      { split; [done|].
        intros [[(v' & [= <-] & [_ Hf] & _) _] _]. congruence. }
      assert (Hacc : acceptable v).
      { split; [|done]. intros Hz. by rewrite Hz in Eb. }
      destruct (bindMp !! Bind_String v) as [n|] eqn:En.
      { split; [done|].
        intros [[(v' & [= <-] & _ & Hn) _] _]. congruence. }
      rewrite IH, (visited_insert_binds rest h l v Hl).
      rewrite (visited_insert_Forall rest h l v
                 (fun b => <[Bind_String v := k]> bindMp !! b = None) Hl).
      split.
      * intros (Hall & Hnd & Ha). split; [split|split; [split|]]; try done.
        -- by exists v.
        -- eapply Forall_impl; [exact Hall|]. simpl.
           intros o (v' & -> & Hacc' & Hn). exists v'. split; [done|].
           split; [done|]. by apply lookup_insert_None in Hn as [? _].
        -- intros Hin. apply list_elem_of_fmap in Hin as (o & Eo & Hin).
           fold (visited rest h) in Hin.
           rewrite Forall_forall in Hall.
           destruct (Hall o Hin) as (v' & -> & _ & Hn).
           apply lookup_insert_None in Hn as [_ Hn]. simpl in Eo. congruence.
      * intros ([_ Hall] & [Hnin Hnd] & Ha). split; [|done].
        rewrite Forall_forall in Hall. apply Forall_forall.
        intros o Hin. destruct (Hall o Hin) as (v' & -> & Hacc' & Hn).
        exists v'. split; [done|]. split; [done|].
        apply lookup_insert_None. split; [done|]. intros Eb'.
        apply Hnin. apply list_elem_of_fmap. exists (Some v').
        split; [|done]. simpl. by rewrite Eb'.
    + cbn [verify_loop]. rewrite Hl. split; [done|].
      unfold visited. rewrite map_cons. cbn [snd]. rewrite Hl.
      intros [[(v' & [=] & _) _]%Forall_cons _].
Qed.

(** When [verifyConfig] returns no error. *)
Lemma verifyConfig_spec (order : list (string * loc)) (c : cfgType)
    (h h' : heap) :
  verifyConfig order c h = Done (h', None) <->
  Verify (Global c) = None /\ size (Listener c) <> 0%nat /\
  Forall (fun o => exists v, o = Some v /\ acceptable v) (visited order h) /\
  NoDup (bind_strings order h) /\
  after order h h'.
Proof.
  unfold verifyConfig. destruct (Verify (Global c)) as [e|].
  { split; [done|]. by intros [? _]. }
  destruct (Nat.eqb (size (Listener c)) 0) eqn:Es.
  { apply Nat.eqb_eq in Es. split; [done|]. by intros (_ & ? & _). }
  apply Nat.eqb_neq in Es. rewrite verify_loop_spec.
  split.
  - intros (Hall & Hnd & Ha). split; [done|]. split; [done|].
    split; [|done]. eapply Forall_impl; [exact Hall|].
    intros o (v & -> & Hacc & _). by exists v.
  - intros (_ & _ & Hall & Hnd & Ha). split; [|done].
    eapply Forall_impl; [exact Hall|].
    intros o (v & -> & Hacc). exists v. split; [done|]. split; [done|].
    apply lookup_empty.
Qed.

Lemma after_lookup (order : list (string * loc)) (h h' : heap)
    (k : string) (l : loc) :
  after order h h' -> (k, l) ∈ order -> h' !! l = tagged <$> h !! l.
Proof.
  intros Ha Hin. rewrite (Ha l), bool_decide_eq_true_2; [done|].
  apply list_elem_of_fmap. by exists (k, l).
Qed.


(** What the loop of [Tags] returns. *)
Lemma Tags_loop_spec (kvs : list (string * loc)) (h : heap)
    (tags : list string) (tagMp : gmap string bool) :
  Forall (fun o : option listener => is_Some o) (visited kvs h) ->
  NoDup tags -> (forall t, t ∈ tags <-> is_Some (tagMp !! t)) ->
  exists tags',
    Tags_loop kvs h tags tagMp = Done tags' /\
    NoDup tags' /\
    forall t, t ∈ tags' <->
      t ∈ tags \/
      (t <> "" /\ exists v, Some v ∈ visited kvs h /\ Tag_Name v = t).
Proof.
  revert tags tagMp. induction kvs as [|[k l] rest IH]; intros tags tagMp.
  - intros _ Hnd Hmp. exists tags. split; [done|]. split; [done|].
    intros t. split; [by left|]. intros [?|(_ & v & Hin & _)]; [done|].
    by apply elem_of_nil in Hin.
  - unfold visited. rewrite map_cons. fold (visited rest h). cbn [snd].
    intros [[v Hl] Hall]%Forall_cons Hnd Hmp. cbn [Tags_loop]. rewrite Hl.
    destruct (Nat.eqb (String.length (Tag_Name v)) 0) eqn:Et.
    + apply length_zero_empty in Et.
      destruct (IH tags tagMp Hall Hnd Hmp) as (tags' & -> & Hnd' & Hin').
      exists tags'. split; [done|]. split; [done|]. intros t.
      rewrite Hin'. split.
      * intros [?|(Hne & v' & Hv' & <-)]; [by left|]. right.
        split; [done|]. exists v'. split; [|done]. by apply list_elem_of_further.
      * intros [?|(Hne & v' & Hv' & <-)]; [by left|].
        apply elem_of_cons in Hv' as [[= <-]|Hv']; [done|]. right.
        split; [done|]. by exists v'.
    + assert (Hne : Tag_Name v <> "").
      { intros Hz. by rewrite Hz in Et. }
      destruct (tagMp !! Tag_Name v) as [b|] eqn:Em.
      * destruct (IH tags tagMp Hall Hnd Hmp) as (tags' & -> & Hnd' & Hin').
        exists tags'. split; [done|]. split; [done|]. intros t.
        rewrite Hin'. split.
        -- intros [?|(Hne' & v' & Hv' & <-)]; [by left|]. right.
           split; [done|]. exists v'. split; [|done].
           by apply list_elem_of_further.
        -- intros [?|(Hne' & v' & Hv' & <-)]; [by left|].
           apply elem_of_cons in Hv' as [[= <-]|Hv'].
           ++ left. apply Hmp. by eexists.
           ++ right. split; [done|]. by exists v'.
      * assert (Hnin : Tag_Name v ∉ tags).
        { intros Hin. apply Hmp in Hin as [? ?]. congruence. }
        destruct (IH (tags ++ [Tag_Name v]) (<[Tag_Name v := true]> tagMp))
          as (tags' & -> & Hnd' & Hin'); [done| |
            |].
        -- apply NoDup_app. split; [done|]. split; [|apply NoDup_singleton].
           intros t Hin Hin2. apply list_elem_of_singleton in Hin2 as ->. done.
        -- intros t. rewrite elem_of_app, list_elem_of_singleton, Hmp.
           destruct (decide (t = Tag_Name v)) as [->|Hd].
           ++ rewrite lookup_insert_eq. split; [by eexists|by right].
           ++ rewrite lookup_insert_ne by done. tauto.
        -- exists tags'. split; [done|]. split; [done|]. intros t.
           rewrite Hin', elem_of_app, list_elem_of_singleton. split.
           ++ intros [[?| ->]|(Hne' & v' & Hv' & <-)]; [by left|..].
              ** right. split; [done|]. exists v. split; [|done].
                 apply list_elem_of_here.
              ** right. split; [done|]. exists v'. split; [|done].
                 by apply list_elem_of_further.
           ++ intros [?|(Hne' & v' & Hv' & <-)]; [by left; left|].
              apply elem_of_cons in Hv' as [[= <-]|Hv']; [by left; right|].
              right. split; [done|]. by exists v'.
Qed.

End RelayFacts.

Section RelayProperties.
Context `{IngestLib} `{!GoStrings}.
Import Relay.

(** X15.  [translateBindType] reads back what [String] prints: the name
    of a bind type, in any mix of upper and lower case, followed by
    [://] and an address gives that bind type and the address, which may
    itself contain [://]. *)
Theorem X15_bind_type_round_trip (scheme rest : string) (bt : bindType) :
  ascii_only scheme = true ->
  bt ∈ [tcp; udp; tcp6; udp6] ->
  to_lower scheme = bindType_String bt ->
  translateBindType (scheme +:+ "://" +:+ rest) = (bt, rest, None) /\
  translateBindType (bindType_String bt +:+ "://" +:+ rest) = (bt, rest, None).
Proof.
  intros Ha Hbt Hl. split; [by apply translateBindType_scheme|].
  destruct (bind_names bt Hbt) as (_ & Ha' & Hl').
  by apply translateBindType_scheme.
Qed.

(** X16.  A bind string without [://] is a TCP address: it is returned
    as it is, with the type [tcp] and no error. *)
Theorem X16_bind_type_default (bstr : string) :
  (forall a b, bstr <> a +:+ "://" +:+ b) ->
  translateBindType bstr = (tcp, bstr, None).
Proof.
  intros Hn. unfold translateBindType, SplitN2.
  destruct (Cut bstr "://") as [[a b]|] eqn:Ec; [|done].
  apply Cut_Some in Ec. by destruct (Hn a b).
Qed.

(** X17.  What [translateBindType] returns: without error one of the
    four bind types, which is either TCP or UDP and has a name, and an
    address that is the end of the bind string; with an error the type
    [-1], which is neither TCP nor UDP and prints as [unknown], and an
    empty address. *)
Theorem X17_bind_type_results (bstr addr : string) (bt : bindType)
    (err : option error) :
  translateBindType bstr = (bt, addr, err) ->
  match err with
  | None =>
      bt ∈ [tcp; udp; tcp6; udp6] /\
      bindType_TCP bt = negb (bindType_UDP bt) /\
      bindType_String bt <> "unknown" /\
      exists pre, bstr = pre +:+ addr
  | Some _ =>
      bt = -1 /\ addr = "" /\
      bindType_TCP bt = false /\ bindType_UDP bt = false /\
      bindType_String bt = "unknown"
  end.
Proof.
  unfold translateBindType, SplitN2.
  destruct (Cut bstr "://") as [[a b]|] eqn:Ec.
  - apply Cut_Some in Ec.
    assert (Hpre : exists pre, bstr = pre +:+ b).
    { exists (a +:+ "://"). by rewrite append_assoc. }
    destruct (String.eqb (ToLower a) "tcp");
      [intros [= <- <- <-]; split; [rewrite !elem_of_cons; auto|done]|].
    destruct (String.eqb (ToLower a) "udp");
      [intros [= <- <- <-]; split; [rewrite !elem_of_cons; auto|done]|].
    destruct (String.eqb (ToLower a) "tcp6");
      [intros [= <- <- <-]; split; [rewrite !elem_of_cons; auto|done]|].
    destruct (String.eqb (ToLower a) "udp6");
      [intros [= <- <- <-]; split; [rewrite !elem_of_cons; auto|done]|].
    by intros [= <- <- <-].
  - intros [= <- <- <-]. split; [apply list_elem_of_here|].
    split; [done|]. split; [done|].
    by exists "".
Qed.

(** X18.  [translateReaderType] reads back what [String] prints for the
    two reader types, white space around the name apart, and takes a
    string of nothing but white space for the line reader. *)
Theorem X18_reader_type_round_trip (rt : readerType) (ws1 ws2 : string) :
  rt ∈ [lineReader; rfc5424Reader] ->
  string_forallb is_space ws1 = true -> string_forallb is_space ws2 = true ->
  translateReaderType (ws1 +:+ readerType_String rt +:+ ws2) = (rt, None) /\
  translateReaderType (ws1 +:+ ws2) = (lineReader, None).
Proof.
  intros Hrt Hw1 Hw2.
  pose proof (spaces_ascii_only ws1 Hw1) as A1.
  pose proof (spaces_ascii_only ws2 Hw2) as A2.
  assert (Hblank : translateReaderType (ws1 +:+ ws2) = (lineReader, None)).
  { unfold translateReaderType.
    rewrite TrimSpace_ascii by (by rewrite ascii_only_app, A1, A2).
    unfold trim. rewrite (trim_left_spaces ws1 ws2 Hw1).
    assert (E : trim_left ws2 = "").
    { clear A2. induction ws2 as [|a ws2 IH]; [done|].
      cbn [string_forallb] in Hw2. apply andb_true_iff in Hw2 as [Ha Hs].
      cbn [trim_left]. rewrite Ha. by apply IH. }
    rewrite E. cbn [trim_right]. by rewrite ToLower_ascii. }
  split; [|done].
  unfold translateReaderType.
  revert Hrt. rewrite !elem_of_cons.
  intros [->|[->|Hn]]; [..|by apply elem_of_nil in Hn].
  - change (readerType_String lineReader) with "LINE".
    rewrite TrimSpace_ascii by (by rewrite !ascii_only_app, A1, A2).
    unfold trim. rewrite (trim_left_spaces ws1 _ Hw1).
    rewrite !append_cons. cbn [trim_left is_space]. 
    change (is_space "L") with false. cbv iota.
    rewrite !trim_right_cons by done.
    change ("" +:+ ws2) with ws2. rewrite (trim_right_spaces ws2 Hw2).
    by rewrite ToLower_ascii.
  - change (readerType_String rfc5424Reader) with "RFC5424".
    rewrite TrimSpace_ascii by (by rewrite !ascii_only_app, A1, A2).
    unfold trim. rewrite (trim_left_spaces ws1 _ Hw1).
    rewrite !append_cons. cbn [trim_left is_space].
    change (is_space "R") with false. cbv iota.
    rewrite !trim_right_cons by done.
    change ("" +:+ ws2) with ws2. rewrite (trim_right_spaces ws2 Hw2).
    by rewrite ToLower_ascii.
Qed.

(** X19.  [Tags] returns every tag name of the listeners that is not
    empty, each of them once, and an error exactly when there is
    none. *)
Theorem X19_Tags_distinct (order : list (string * loc)) (h : heap) :
  Forall (fun o : option listener => is_Some o) (visited order h) ->
  exists tags err,
    Tags order h = Done (tags, err) /\
    NoDup tags /\
    (forall t, t ∈ tags <->
       t <> "" /\ exists v, Some v ∈ visited order h /\ Tag_Name v = t) /\
    (err = None <-> tags <> []).
Proof.
  intros Hall.
  destruct (Tags_loop_spec order h [] ∅ Hall) as (tags & Et & Hnd & Hin).
  { constructor. }
  { intros t. rewrite lookup_empty. split; [by intros ?%elem_of_nil|].
    by intros [? ?]. }
  unfold Tags. rewrite Et. simpl.
  assert (Hin' : forall t, t ∈ tags <->
            t <> "" /\ exists v, Some v ∈ visited order h /\ Tag_Name v = t).
  { intros t. rewrite Hin. split; [|by right].
    intros [?%elem_of_nil|?]; done. }
  destruct tags as [|t0 tags]; simpl.
  - exists [], (Some (errors_New "No tags specified")).
    split; [done|]. split; [constructor|]. split; [done|]. done.
  - exists (t0 :: tags), None. split; [done|]. split; [done|]. split; [done|].
    done.
Qed.

(** X20.  After a [verifyConfig] without error the global settings are
    in order, there is a listener, every listener has a bind string, a
    tag name ([default] where it had none) that is not forbidden, no two
    listeners share a bind string, and nothing else has changed. *)
Theorem X20_verifyConfig_accepts (order : list (string * loc))
    (c : cfgType) (h h' : heap) :
  verifyConfig order c h = Done (h', None) ->
  Verify (Global c) = None /\ Listener c <> ∅ /\
  (forall k l, (k, l) ∈ order ->
     exists v, h !! l = Some v /\ h' !! l = Some (tagged v) /\
               Bind_String v <> "" /\ Tag_Name (tagged v) <> "" /\
               forbidden_tag (Tag_Name (tagged v)) = false) /\
  (forall i j k1 l1 k2 l2 v1 v2,
     order !! i = Some (k1, l1) -> order !! j = Some (k2, l2) ->
     h' !! l1 = Some v1 -> h' !! l2 = Some v2 ->
     Bind_String v1 = Bind_String v2 -> i = j) /\
  (forall l, l ∉ order.*2 -> h' !! l = h !! l).
Proof.
  intros (Hv & Hs & Hall & Hnd & Ha)%verifyConfig_spec.
  split; [done|]. split; [intros Hz; by rewrite Hz, map_size_empty in Hs|].
  assert (Hvis : forall k l, (k, l) ∈ order ->
            exists v, h !! l = Some v /\ h' !! l = Some (tagged v) /\
                      acceptable v).
  { intros k l Hin. rewrite Forall_forall in Hall.
    destruct (Hall (h !! l)) as (v & Hl & Hacc).
    { unfold visited. apply list_elem_of_fmap. by exists (k, l). }
    exists v. split; [done|]. split; [|done].
    by rewrite (after_lookup order h h' k l Ha Hin), Hl. }
  split; [|split].
  - intros k l Hin. destruct (Hvis k l Hin) as (v & Hl & Hl' & Hb & Hf).
    exists v. split; [done|]. split; [done|]. split; [done|].
    split; [apply tagged_Tag_Name|done].
  - intros i j k1 l1 k2 l2 v1 v2 Hi Hj H1' H2' Eb.
    destruct (Hvis k1 l1) as (w1 & Hw1 & Hw1' & _);
      [by eapply list_elem_of_lookup_2|].
    destruct (Hvis k2 l2) as (w2 & Hw2 & Hw2' & _);
      [by eapply list_elem_of_lookup_2|].
    rewrite Hw1' in H1'. injection H1' as <-.
    rewrite Hw2' in H2'. injection H2' as <-.
    rewrite !tagged_Bind_String in Eb.
    apply (proj1 (NoDup_alt _) Hnd i j (Some (Bind_String w1))).
    + unfold bind_strings, visited. rewrite map_map.
      change (map ?f order) with (f <$> order).
      by rewrite list_lookup_fmap, Hi; simpl; rewrite Hw1.
    + unfold bind_strings, visited. rewrite map_map.
      change (map ?f order) with (f <$> order).
      by rewrite list_lookup_fmap, Hj; simpl; rewrite Hw2, Eb.
  - intros l Hl. by rewrite (Ha l), bool_decide_eq_false_2.
Qed.


(** X22.  A configuration that [verifyConfig] has accepted has tags:
    [Tags] returns, without error, a list that holds the tag name of
    every listener. *)
Theorem X22_verified_has_tags (order order' : list (string * loc))
    (c : cfgType) (h h' : heap) :
  order ≡ₚ map_to_list (Listener c) -> order' ≡ₚ order ->
  verifyConfig order c h = Done (h', None) ->
  exists tags,
    Tags order' h' = Done (tags, None) /\
    NoDup tags /\
    forall k l, Listener c !! k = Some l ->
      exists v, h' !! l = Some v /\ Tag_Name v ∈ tags.
Proof.
  intros Hp Hp' (Hv & Hs & Hall & Hnd & Ha)%verifyConfig_spec.
  assert (Hvis : forall k l, (k, l) ∈ order ->
            exists v, h !! l = Some v /\ h' !! l = Some (tagged v)).
  { intros k l Hin. rewrite Forall_forall in Hall.
    destruct (Hall (h !! l)) as (v & Hl & Hacc).
    { unfold visited. apply list_elem_of_fmap. by exists (k, l). }
    exists v. split; [done|].
    by rewrite (after_lookup order h h' k l Ha Hin), Hl. }
  assert (Hsome : Forall (fun o : option listener => is_Some o)
                    (visited order' h')).
  { unfold visited. apply Forall_map, Forall_forall. intros [k l] Hin.
    rewrite Hp' in Hin. destruct (Hvis k l Hin) as (v & _ & Hl').
    simpl. rewrite Hl'. by eexists. }
  destruct (Tags_loop_spec order' h' [] ∅ Hsome) as (tags & Et & Hnd' & Hin).
  { constructor. }
  { intros t. rewrite lookup_empty. split; [by intros ?%elem_of_nil|].
    by intros [? ?]. }
  assert (Hmem : forall k l, Listener c !! k = Some l ->
            exists v, h' !! l = Some v /\ Tag_Name v ∈ tags).
  { intros k l Hkl. apply elem_of_map_to_list in Hkl. rewrite <- Hp in Hkl.
    destruct (Hvis k l Hkl) as (v & _ & Hl'). exists (tagged v).
    split; [done|]. apply Hin. right. split; [apply tagged_Tag_Name|].
    exists (tagged v). split; [|done]. unfold visited.
    apply list_elem_of_fmap. exists (k, l). split; [done|]. by rewrite Hp'. }
  exists tags. split; [|done].
  unfold Tags. rewrite Et. simpl.
  destruct tags as [|t0 tags]; [|done].
  destruct (map_to_list (Listener c)) as [|[k l] rest] eqn:El.
  - apply map_to_list_empty_iff in El. rewrite El in Hs.
    by rewrite map_size_empty in Hs.
  - destruct (Hmem k l) as (v & _ & Hin0).
    { apply elem_of_map_to_list. rewrite El. apply list_elem_of_here. }
    by apply elem_of_nil in Hin0.
Qed.

End RelayProperties.

(** * The claims on concrete records *)

Section Runs.
Import Ref Corelight.

(** Goals about concrete records are settled by running the model. *)
Ltac run := vm_compute; reflexivity.
Ltac run_decide := apply (bool_decide_unpack _); vm_compute; exact I.

Lemma demo_constructed : constructed tagHeaders cfg0 (Some tagger0) demo.
Proof. split; [reflexivity|]. run. Qed.

Lemma demo_wf : wf demo.
Proof. run_decide. Qed.

Lemma conn_in_table : ("conn", fields_of "conn") ∈ tagHeaders.
Proof. run_decide. Qed.

Lemma conn_decodes : decodes conn_payload (decoded conn_payload).
Proof. exists 0%nat. split; run. Qed.

(** The scenario of the specification: the record is routed to the tag
    of [zeekconn], stamped 2021-01-01T00:00:00Z, and its payload starts
    with the timestamp, [abc] and [1.2.3.4], with a dash for each of the
    nineteen absent fields. *)
Example scenario_conn :
  transform demo (arriving conn_payload)
    = Some (entry {| unix_sec := 1609459200; nsec := 0 |} 0 conn_line) /\
  tags demo !! "zeekconn" = Some 0 /\
  columns conn_line
    = map of_string
        (["1609459200.000000"; "abc"; "1.2.3.4"] ++ replicate 19 "-").
Proof. repeat split; run. Qed.

(** Values of every kind: integers, a fraction, [null], a boolean, an
    object, an array, and a whole number beyond the [int64] range. *)
Example scenario_values :
  exists e,
    transform demo (arriving dns_payload) = Some e /\
    TS e = {| unix_sec := 1609459200; nsec := 123456789 |} /\
    tags demo !! "zeekdns" = Some (Tag e) /\
    columns (Data e)
      = map of_string
          ["1609459200.123457"; "-"; "-"; "-"; "-"; "-"; "-"; "-7";
           "0.00400"; "<nil>"; "-"; "-"; "-"; "-"; "-"; "-"; "true"; "-";
           "-"; "-"; "0"; "map[a:x b:1]"; "[3600 60.5]";
           "-9223372036854775808"].
Proof.
  eexists. split; [run|].
  repeat split; run.
Qed.

(** Bytes before the first opening brace are skipped. *)
Example scenario_framed :
  exists e,
    transform demo (arriving framed_payload) = Some e /\
    TS e = {| unix_sec := 1609455600; nsec := 0 |} /\
    tags demo !! "zeekweird" = Some (Tag e) /\
    columns (Data e)
      = map of_string
          ["1609455600.000000"; "-"; "-"; "-"; "-"; "-"; "x"; "-"; "-"; "-"].
Proof.
  eexists. split; [run|].
  repeat split; run.
Qed.

(** Records that stay as they are: no payload, no brace, broken JSON, a
    [ts] that does not parse, a [ts] that is a number, a category the
    schema does not know. *)
Example scenario_pass_through :
  Forall (fun data => transform demo (arriving data) = Some (arriving data))
    [[]; plain_payload; broken_payload; undated_payload;
     numeric_ts_payload; foreign_payload].
Proof. repeat constructor; run. Qed.

(** The number 5 is written as [5], the number 5.5 as [5.50000]. *)
Example scenario_numbers :
  exists e,
    transform demo (arriving numeric_payload) = Some e /\
    columns (Data e) !! 3%nat = Some (of_string "5") /\
    columns (Data e) !! 8%nat = Some (of_string "5.50000") /\
    field_text (decoded numeric_payload) "id.orig_p" = "5" /\
    field_text (decoded numeric_payload) "duration" = "5.50000".
Proof.
  eexists. split; [run|].
  repeat split; run.
Qed.

(** An [init] that fails on an existing processor leaves it with the
    tables built up to the failure: the field-list table has one key
    more than the tag table. *)
Example reconfigure_failure :
  exists c',
    Config tagHeaders blank3 (DynCorelightConfig cfg0) None
      = Done (c', Some "all tags are in use") /\
    size (tagFields c') = 4%nat /\ size (tags c') = 3%nat.
Proof.
  eexists. split; [run|].
  split; run.
Qed.

(** C1 on a batch with a record of a foreign category. *)
Lemma C1_witness :
  exists h',
    Process demo batch0 store0 = Done (batch0, None, h') /\
    h' !! 0%nat = Some (arriving foreign_payload) /\
    (forall h1, h1 !! 0%nat = Some (arriving foreign_payload) ->
       Process_ent demo h1 (Some 0%nat) = Done h1) /\
    (forall pre post, batch0 = pre ++ Some 0%nat :: post ->
       Process_loop demo batch0 store0
         = Process_loop demo (pre ++ post) store0).
Proof.
  apply (C1_failure_passes_through demo batch0 store0 0%nat
           (arriving foreign_payload)).
  - run_decide.
  - run.
  - apply (fail_category demo _ (decoded foreign_payload) "netflow").
    + exists 0%nat. split; run.
    + run.
    + run.
Defined.




(** C4 on the processor of the scenario. *)
Lemma C4_witness :
  (forall (h : store) (ent : option loc),
     exists h',
       Process_ent demo h ent = Done h' /\
       (h' = h \/
        exists l e e',
          ent = Some l /\ h !! l = Some e /\ Data e <> [] /\
          rewritten demo e e' /\ h' = <[l := e']> h)) /\
  (forall (ents : list (option loc)) (h : store),
     exists h',
       Process_loop demo ents h = Done h' /\
       forall l e, h !! l = Some e ->
         exists e', h' !! l = Some e' /\ rtc (rewritten demo) e e').
Proof.
  apply (C4_all_or_nothing demo).
  run_decide.
Defined.

(** C5 on the batch of three elements. *)
Lemma C5_witness :
  Process demo [] store0 = Done ([], None, store0) /\
  exists h',
    Process demo batch0 store0 = Done (batch0, None, h') /\
    Process_loop demo batch0 store0 = Done h' /\
    dom h' = dom store0 /\
    (forall a b, batch0 = a ++ b ->
       Process_loop demo batch0 store0
         = Process_loop demo a store0 ≫= Process_loop demo b).
Proof.
  apply (C5_batch_preserved demo batch0 store0).
  run_decide.
Defined.

(** C6 on a tagger with room for three names: the fourth negotiation
    fails and no processor is returned. *)
Lemma C6_witness :
  NewCorelight tagHeaders cfg0 (Some tagger3)
    = Done (None, Some "all tags are in use").
Proof.
  apply (C6_init_failure (H:=types) tagHeaders cfg0 tagger3).
  run.
Defined.

(** C7 as stated fails: the line emitted for a record whose last field
    is a string holding a JSON object contains an opening brace, and the
    transform run on that line rewrites the record once more. *)
Lemma C7_counterexample :
  exists e1 e2,
    transform demo (arriving nested_payload) = Some e1 /\
    Tag e1 = 6 /\
    IndexByte (Data e1) lbrace_byte = Some 34%nat /\
    transform demo e1 = Some e2 /\
    Tag e2 = 10 /\
    TS e2 <> TS e1 /\
    Data e2 <> Data e1.
Proof.
  eexists. eexists. split; [run|].
  split; [run|].
  split; [run|].
  split; [run|].
  split; [run|].
  split; vm_compute; intros E; discriminate E.
Qed.

(** C7 (amended) on the line of the scenario, which has no brace. *)
Lemma C7_witness :
  Process_ent demo
    {[0%nat := entry (parsed "2021-01-01T00:00:00.000000Z") 0 conn_line]}
    (Some 0%nat)
  = Done
      {[0%nat := entry (parsed "2021-01-01T00:00:00.000000Z") 0 conn_line]}.
Proof.
  destruct (C7_rerun_without_brace demo
              (parsed "2021-01-01T00:00:00.000000Z") "ts"
              (tail (Split (fields_of "conn") ","%char))
              (decoded conn_payload) conn_line
              {[0%nat := entry (parsed "2021-01-01T00:00:00.000000Z") 0
                           conn_line]}
              0%nat
              (entry (parsed "2021-01-01T00:00:00.000000Z") 0 conn_line))
    as (Hrun & Hline & _).
  - run.
  - run.
  - reflexivity.
  - apply Hrun, Hline. run_decide.
Defined.

(** C8 on the processor of the scenario, built with an empty prefix. *)
Lemma C8_witness :
  Prefix (config demo) = "zeek" /\
  (forall t, t ∈ dom (tags demo) <->
             exists k v, (k, v) ∈ tagHeaders /\ t = "zeek" +:+ k) /\
  (forall k v, (k, v) ∈ tagHeaders ->
     tagFields demo !! ("zeek" +:+ k) = Some (Split v ","%char)).
Proof.
  destruct (C8_prefix tagHeaders blank demo cfg0 (Some tagger0))
    as (Hp & _ & _ & Ht & _ & Hf & _).
  - reflexivity.
  - run.
  - split; [exact Hp|]. split; [exact Ht|exact Hf].
Defined.


(** C10 on the scenario of the specification. *)
Lemma C10_witness :
  exists line tv,
    emitLine (parsed "2021-01-01T00:00:00.000000Z")
      (Split (fields_of "conn") ","%char) (decoded conn_payload)
      = Done (line, true) /\
    tags demo !! "zeekconn" = Some tv /\
    Process_ent demo {[0%nat := arriving conn_payload]} (Some 0%nat)
      = Done (<[0%nat := entry (parsed "2021-01-01T00:00:00.000000Z") tv
                           line]>
                {[0%nat := arriving conn_payload]}).
Proof.
  destruct (C10_emission_total tagHeaders cfg0 (Some tagger0) demo
              {[0%nat := arriving conn_payload]} 0%nat
              (arriving conn_payload) (decoded conn_payload) "zeekconn"
              (parsed "2021-01-01T00:00:00.000000Z")
              (Split (fields_of "conn") ","%char))
    as (_ & _ & Hrew).
  - split; [reflexivity|]. run.
  - run.
  - exists 0%nat. split; run.
  - run.
  - run.
  - exact Hrew.
Defined.

(** X1 on a record behind a syslog priority. *)
Lemma X1_witness :
  processLine demo (of_string "<13>" ++ lbrace_byte :: json "'_path':'conn'}")
    = processLine demo (lbrace_byte :: json "'_path':'conn'}").
Proof.
  apply (X1_framing_is_skipped demo (of_string "<13>")
           (json "'_path':'conn'}")).
  intros Hin. vm_compute in Hin.
  repeat (apply elem_of_cons in Hin as [Hin|Hin]; [discriminate Hin|]).
  by apply elem_of_nil in Hin.
Defined.

(** X2 on the batch of three elements, with the first two exchanged. *)
Lemma X2_witness :
  Process_loop demo batch0 store0
    = Process_loop demo [None; Some 0%nat; Some 1%nat] store0.
Proof.
  apply (X2_batch_order_irrelevant demo batch0).
  - run_decide.
  - apply perm_swap.
Defined.

(** X3 on a store with a record the batch does not point to. *)
Lemma X3_witness :
  exists h',
    Process_loop demo batch0 store1 = Done h' /\
    h' !! 2%nat = Some (arriving numeric_payload).
Proof.
  eexists. split; [run|].
  etrans; [apply (X3_batch_frame demo batch0 store1)|run].
  - run_decide.
  - run.
Defined.

(** X4 on two stores that hold the same record at address 1. *)
Lemma X4_witness :
  exists h1' h2',
    Process_loop demo batch0 store0 = Done h1' /\
    Process_loop demo batch0 store1 = Done h2' /\
    h1' !! 1%nat = h2' !! 1%nat.
Proof.
  eexists. eexists. split; [run|]. split; [run|].
  apply (X4_batch_noninterference demo batch0 store0 store1).
  - run.
  - run.
  - run.
Defined.

(** X5 on the tagger with room for three names: the fourth category
    visited has a field list and no tag. *)
Lemma X5_witness :
  exists k v,
    (k, v) ∈ tagHeaders /\
    Prefix (config stalled) = "zeek" /\
    tagFields stalled !! ("zeek" +:+ k) = Some (Split v ","%char) /\
    tags stalled !! ("zeek" +:+ k) = None /\
    dom (tagFields stalled) = {["zeek" +:+ k]} ∪ dom (tags stalled).
Proof.
  destruct (X5_failed_init_tables tagHeaders blank3 stalled cfg0 None
              "all tags are in use")
    as (k & v & Hin & Hp & Hf & Ht & Hd & _).
  - run_decide.
  - run.
  - exists k, v. split; [exact Hin|]. split; [exact Hp|].
    split; [exact Hf|]. split; [exact Ht|exact Hd].
Defined.

(** X6 on the processor of the scenario, reconfigured with another
    prefix and without tagger. *)
Lemma X6_witness :
  config demo = {| Prefix := "zeek" |} /\
  Config tagHeaders demo DynNil None = Done (demo, Some "nil configuration").
Proof.
  destruct (X6_Config_keeps_prefix tagHeaders tagHeaders cfg0
              {| Prefix := "bro" |} (Some tagger0) None demo demo)
    as (Hc & _ & _ & Hn & _).
  - split; [reflexivity|]. run.
  - reflexivity.
  - run.
  - split; [run|exact Hn].
Defined.

(** X7 with the default configuration. *)
Lemma X7_witness :
  exists w, NewCorelight (T:=RTagger) tagHeaders cfg0 None = Panic w.
Proof.
  apply (X7_nil_tagger_panics (T:=RTagger) tagHeaders cfg0). reflexivity.
Defined.

(** X8 on the scenario of the specification, with the first field name
    and a key outside the field list changed. *)
Lemma X8_witness :
  emitLine (parsed "2021-01-01T00:00:00Z") ["ts"; "uid"] (decoded conn_payload)
  = emitLine (parsed "2021-01-01T00:00:00Z") ["time"; "uid"]
      (<["vlan" := VNull]> (decoded conn_payload)).
Proof.
  apply (X8_emitLine_reads_listed_fields (H:=types)).
  intros f Hin. apply list_elem_of_singleton in Hin as ->. run.
Defined.

(** X9 on the scenario of the specification. *)
Lemma X9_witness :
  length (columns conn_line) = 22%nat /\
  columns conn_line !! 9%nat = columns conn_line !! 17%nat /\
  columns conn_line !! 10%nat = columns conn_line !! 19%nat.
Proof.
  destruct (X9_conn_repeats_columns tagHeaders cfg0 (Some tagger0) demo
              (Split (fields_of "conn") ","%char)
              (parsed "2021-01-01T00:00:00.000000Z")
              (decoded conn_payload) conn_line)
    as (Hl & H9 & H17 & H10 & H19).
  - split; [reflexivity|]. run.
  - run.
  - run.
  - run_decide.
  - split; [exact Hl|].
    split; [exact (eq_trans H9 (eq_sym H17))|exact (eq_trans H10 (eq_sym H19))].
Defined.

(** X10 on the processor of the scenario. *)
Lemma X10_witness :
  size (tagFields demo) = 32%nat /\ size (tags demo) = 32%nat /\
  forall tag headers, tagFields demo !! tag = Some headers ->
    exists rest, headers = "ts" :: rest /\ rest <> [] /\
                 Forall (fun f => f <> "") headers.
Proof.
  apply (X10_schema_tables tagHeaders cfg0 (Some tagger0) demo).
  split; [reflexivity|]. run.
Defined.

(** X11 on the processor of the scenario. *)
Lemma X11_witness :
  tags demo
    = list_to_map
        (negotiated (map (fun kv => "zeek" +:+ kv.1) tagHeaders) tagger0).1 /\
  tg demo
    = Some (negotiated (map (fun kv => "zeek" +:+ kv.1) tagHeaders) tagger0).2.
Proof.
  destruct (X11_tags_are_negotiated tagHeaders blank demo cfg0 None tagger0
              None) as (Ht & Hg & _).
  - reflexivity.
  - run_decide.
  - run.
  - split; [exact Ht|exact Hg].
Defined.

(** X12 on a record of a category the schema does not know. *)
Lemma X12_witness :
  Process_ent demo {[0%nat := arriving foreign_payload]} (Some 0%nat)
    = Done {[0%nat := arriving foreign_payload]}.
Proof.
  apply (X12_unknown_category tagHeaders cfg0 (Some tagger0) demo
           {[0%nat := arriving foreign_payload]} 0%nat
           (arriving foreign_payload) (decoded foreign_payload) "netflow").
  - split; [reflexivity|]. run.
  - run.
  - exists 0%nat. split; run.
  - run.
  - run_decide.
Defined.

(** X13 on a configuration that sets the prefix. *)
Lemma X13_witness :
  Prefix {| Prefix := "zeek" |} <> "" /\ config demo = {| Prefix := "zeek" |}.
Proof.
  apply (X13_loaded_configuration (H:=types) (Some "zeek") tagHeaders
           {| Prefix := "zeek" |} (Some tagger0) demo).
  - run.
  - split; [reflexivity|]. run.
Defined.

(** X14 on a processor value that was never initialised. *)
Lemma X14_witness :
  Process blank batch0 store0 = Done (batch0, None, store0).
Proof. apply (X14_uninitialised_passes_through blank batch0 store0). run. Defined.

End Runs.

(** * The relay configuration on a sample *)

Section RelayRuns.
Import Ref Relay.

Ltac run := vm_compute; reflexivity.
Ltac run_decide := apply (bool_decide_unpack _); vm_compute; exact I.

(** X15 on an upper-case scheme and an IPv6 address. *)
Lemma X15_witness :
  translateBindType "TCP6://[::1]:514" = (tcp6, "[::1]:514", None) /\
  translateBindType "tcp6://[::1]:514" = (tcp6, "[::1]:514", None).
Proof.
  apply (X15_bind_type_round_trip (H0:=ingest) "TCP6" "[::1]:514" tcp6).
  - reflexivity.
  - run_decide.
  - reflexivity.
Defined.

(** X16 on an address with a port. *)
Lemma X16_witness :
  translateBindType "127.0.0.1:514" = (tcp, "127.0.0.1:514", None).
Proof.
  apply (X16_bind_type_default (H0:=ingest) "127.0.0.1:514").
  intros a b. apply Cut_None. reflexivity.
Defined.

(** X17 on a UDP bind string. *)
Lemma X17_witness :
  udp ∈ [tcp; udp; tcp6; udp6] /\
  bindType_TCP udp = negb (bindType_UDP udp) /\
  bindType_String udp <> "unknown" /\
  exists pre, "udp://0.0.0.0:514" = pre +:+ "0.0.0.0:514".
Proof.
  apply (X17_bind_type_results (H0:=ingest) "udp://0.0.0.0:514" "0.0.0.0:514"
           udp None).
  reflexivity.
Defined.

(** X18 on a reader type with white space around it. *)
Lemma X18_witness :
  translateReaderType (" " +:+ "RFC5424" +:+ String "010" "")
    = (rfc5424Reader, None) /\
  translateReaderType (" " +:+ String "010" "") = (lineReader, None).
Proof.
  apply (X18_reader_type_round_trip (H0:=ingest) rfc5424Reader
           " " (String "010" "")).
  - run_decide.
  - reflexivity.
  - reflexivity.
Defined.

(** X19 on the two listeners of the sample configuration. *)
Lemma X19_witness :
  exists tags err,
    Tags relay_order relay_verified = Done (tags, err) /\
    NoDup tags /\
    (forall t, t ∈ tags <->
       t <> "" /\
       exists v, Some v ∈ visited relay_order relay_verified /\
                 Tag_Name v = t) /\
    (err = None <-> tags <> []).
Proof.
  apply (X19_Tags_distinct (H0:=ingest) relay_order relay_verified).
  run_decide.
Defined.

(** X20 on the sample configuration: the listener without tag name is
    given the name [default]. *)
Lemma X20_witness :
  Verify (Global relay_cfg) = None /\
  (forall k l, (k, l) ∈ relay_order ->
     exists v, relay_heap !! l = Some v /\
               relay_verified !! l = Some (tagged v) /\
               Bind_String v <> "" /\ Tag_Name (tagged v) <> "" /\
               forbidden_tag (Tag_Name (tagged v)) = false).
Proof.
  destruct (X20_verifyConfig_accepts relay_order relay_cfg relay_heap
              relay_verified) as (Hv & _ & Hl & _).
  - run.
  - split; [exact Hv|exact Hl].
Defined.


(** X22 on the sample configuration. *)
Lemma X22_witness :
  exists tags,
    Tags (reverse relay_order) relay_verified = Done (tags, None) /\
    NoDup tags /\
    forall k l, Listener relay_cfg !! k = Some l ->
      exists v, relay_verified !! l = Some v /\ Tag_Name v ∈ tags.
Proof.
  apply (X22_verified_has_tags relay_order (reverse relay_order) relay_cfg
           relay_heap relay_verified).
  - vm_compute. first [reflexivity | apply perm_swap].
  - apply perm_swap.
  - run.
Defined.

End RelayRuns.
